(** * Implementation scoreboard guard

    A shallow embedding of
    [.GITHUB-MODE/scripts/check-implementation-scoreboard.ts]: the parser of
    [git diff --name-status] output, the spec-artifact classifier, the
    scoreboard validator, the summary renderer and the guard that ties a newly
    added planning document to a scoreboard update.

    Conventions of the embedding.
    - A JavaScript string is a sequence of code units; it is modelled by
      [string], whose characters are the code units below 256.
    - A function that returns [void] or throws [new Error(msg)] is modelled by
      a function into [completion].
    - A [for ... of] loop over an array is a left fold of its body, or a
      structural recursion when the body can leave the loop by throwing.

    The development also covers the command line of the script (the choice
    of the base ref, the entries of the diff, [main]) and the functions of
    [signal-reaction.ts]. There, what the code gets from outside (git, the
    file system, the environment, the arguments) is a parameter of the
    model, and a number is an integer that prints in plain decimal
    notation. *)

From Stdlib Require Import Ascii.
From stdpp Require Import gmap strings sorting pretty.

(** ** Strings as the script uses them *)

Module JS.

Definition TAB : ascii := "009"%char.
Definition LF : ascii := "010"%char.
Definition QUOTE : ascii := "034"%char.

(** The code units below 256 that [String.prototype.trim] removes:
    the white space TAB, VT, FF, SP, NBSP and the line terminators LF, CR. *)
Definition isWhiteSpace (c : ascii) : bool :=
  match c with
  | "009" | "010" | "011" | "012" | "013" | " " | "160" => true
  | _ => false
  end%char.

(** [s.split(sep)] for a separator of one code unit. The empty string
    splits into one empty field. *)
Fixpoint split (sep : ascii) (s : string) : list string :=
  match s with
  | "" => [""]
  | String c rest =>
      if decide (c = sep) then "" :: split sep rest
      else match split sep rest with
           | field :: fields => String c field :: fields
           | [] => [String c ""]
           end
  end.

(** [fields.join(sep)]. *)
Fixpoint join (sep : string) (fields : list string) : string :=
  match fields with
  | [] => ""
  | [field] => field
  | field :: rest => field +:+ sep +:+ join sep rest
  end.

Fixpoint trimStart (s : string) : string :=
  match s with
  | "" => ""
  | String c rest => if isWhiteSpace c then trimStart rest else s
  end.

Fixpoint trimEnd (s : string) : string :=
  match s with
  | "" => ""
  | String c rest =>
      let rest' := trimEnd rest in
      if isWhiteSpace c && bool_decide (rest' = "") then ""
      else String c rest'
  end.

(** [s.trim()]. *)
Definition trim (s : string) : string := trimEnd (trimStart s).

(** [s.startsWith(searchString)]. *)
Fixpoint startsWith (s searchString : string) : bool :=
  match searchString, s with
  | "", _ => true
  | String _ _, "" => false
  | String a searchRest, String b rest =>
      bool_decide (a = b) && startsWith rest searchRest
  end.

(** [s.endsWith(searchString)]: some tail of [s] is [searchString]. *)
Fixpoint endsWith (s searchString : string) : bool :=
  bool_decide (s = searchString)
  || match s with
     | "" => false
     | String _ rest => endsWith rest searchString
     end.

(** Truthiness of an array element read by index: [undefined] (index out of
    range) and the empty string are falsy. *)
Definition truthy (field : option string) : bool :=
  match field with
  | Some s => bool_decide (s ≠ "")
  | None => false
  end.

(** [haystack] has [needle] as a substring. *)
Definition occursIn (needle haystack : string) : Prop :=
  ∃ before after, haystack = before +:+ needle +:+ after.

(** A string without the code unit [c]. *)
Fixpoint free (c : ascii) (s : string) : bool :=
  match s with
  | "" => true
  | String d rest => bool_decide (d ≠ c) && free c rest
  end.

End JS.

(** ** Data model *)

Record DiffEntry := mkDiffEntry { status : string; path : string }.

Global Instance DiffEntry_eq_dec : EqDecision DiffEntry.
Proof. solve_decision. Defined.

(** [state] is declared as [ScoreState], yet the scoreboard comes out of
    [JSON.parse] unchecked and the validator tests the field against the
    allowed values: it is any string. *)
Record Capability := mkCapability {
  id : string;
  description : string;
  state : string;
  evidence : option (list string)
}.

Record Scoreboard := mkScoreboard {
  version : Z;
  capabilities : list Capability
}.

(** How a call of a [void] function ends. *)
Inductive completion :=
  | Normal
  | Throw (message : string).

Definition SCOREBOARD_PATH : string :=
  ".GITHUB-MODE/runtime/implementation-scoreboard.json".
Definition SPEC_ARTIFACT_PREFIX : string := ".GITHUB-MODE/docs/planning/".

(** ** parseDiffEntries *)

(** [entries.push(x)]. *)
Definition push {A} (entries : list A) (x : A) : list A := entries ++ [x].

(** The body of the loop over the lines, from the array built so far to the
    array after the line. *)
Definition parseDiffEntries_line (entries : list DiffEntry) (line : string)
    : list DiffEntry :=
  match JS.split JS.TAB line with
  | part0 :: part1 :: parts =>
      let status := JS.trim part0 in
      if JS.startsWith status "R" || JS.startsWith status "C" then
        let entries := push entries (mkDiffEntry status (JS.trim part1)) in
        match parts with
        | part2 :: _ =>
            if JS.truthy (Some part2)
            then push entries (mkDiffEntry status (JS.trim part2))
            else entries
        | [] => entries
        end
      else push entries (mkDiffEntry status (JS.trim part1))
  | _ => entries
  end.

Definition parseDiffEntries (diffOutput : string) : list DiffEntry :=
  foldl parseDiffEntries_line [] (JS.split JS.LF diffOutput).

(** The path fields a rename or copy line gives an entry to: the first one,
    and the second one when it is there and not empty. *)
Definition availablePaths (paths : list string) : list string :=
  match paths with
  | old :: new :: _ => if bool_decide (new = "") then [old] else [old; new]
  | _ => paths
  end.

(** A blank line, or a line with fewer than two tab-separated fields. *)
Definition skippedLine (line : string) : bool :=
  bool_decide (line = "") || bool_decide (length (JS.split JS.TAB line) < 2).

(** The rename line ["R100\told/a.md\tnew/a.md"]. *)
Definition renameLine : string :=
  "R100" +:+ String JS.TAB "old/a.md" +:+ String JS.TAB "new/a.md".

(** ** isSpecArtifact, getAddedSpecArtifacts, hasScoreboardUpdate *)

Definition isSpecArtifact (path : string) : bool :=
  JS.startsWith path SPEC_ARTIFACT_PREFIX
  && JS.endsWith path ".md"
  && negb (JS.endsWith path "/README.md").

(** [Set.prototype.add] on a set kept in insertion order, the order in which
    the spread [[...additions]] reads it. *)
Definition setAdd (additions : list string) (x : string) : list string :=
  if decide (x ∈ additions) then additions else additions ++ [x].

(** [Array.prototype.toSorted] without a comparator: ascending by code units. *)
Definition toSorted (l : list string) : list string := merge_sort String.le l.

Definition getAddedSpecArtifacts_entry (additions : list string) (entry : DiffEntry)
    : list string :=
  if bool_decide (status entry = "A") && isSpecArtifact (path entry)
  then setAdd additions (path entry)
  else additions.

Definition getAddedSpecArtifacts (entries : list DiffEntry) : list string :=
  toSorted (foldl getAddedSpecArtifacts_entry [] entries).

(** [entries.some(...)]. *)
Definition hasScoreboardUpdate (entries : list DiffEntry) : bool :=
  existsb
    (λ entry, bool_decide (path entry = SCOREBOARD_PATH)
              && bool_decide (status entry ≠ "D"))
    entries.

(** The diff of a change that moves the scoreboard to another path and adds
    a planning document. *)
Definition renamedScoreboardDiff : string :=
  "R100" +:+ String JS.TAB SCOREBOARD_PATH
    +:+ String JS.TAB ".GITHUB-MODE/runtime/scoreboard-v2.json"
    +:+ String JS.LF ("A" +:+ String JS.TAB ".GITHUB-MODE/docs/planning/x.md").

(** ** validateScoreboard *)

Definition allowedStates : list string := ["spec-only"; "scaffold"; "operational"].

Definition noCapabilityError : string :=
  "implementation-scoreboard.json must contain at least one capability.".
Definition emptyFieldError : string :=
  "Each capability requires non-empty id and description fields.".
Definition duplicateIdError (capability : Capability) : string :=
  "Duplicate capability id found: " +:+ id capability.
Definition invalidStateError (capability : Capability) : string :=
  "Capability " +:+ id capability +:+ " has invalid state "
    +:+ String JS.QUOTE (state capability +:+ String JS.QUOTE ". ")
    +:+ "Expected one of: " +:+ JS.join ", " allowedStates +:+ ".".

(** The loop over the capabilities, with the set [ids] of the ids met so far;
    a [throw] in the body ends the loop. *)
Fixpoint validateScoreboard_loop (ids : gset string) (capabilities : list Capability)
    : completion :=
  match capabilities with
  | [] => Normal
  | capability :: rest =>
      if bool_decide (id capability = "") || bool_decide (description capability = "")
      then Throw emptyFieldError
      else if decide (id capability ∈ ids)
      then Throw (duplicateIdError capability)
      else
        let ids := {[id capability]} ∪ ids in
        if negb (bool_decide (state capability ∈ allowedStates))
        then Throw (invalidStateError capability)
        else validateScoreboard_loop ids rest
  end.

(** [capabilities] is a list by the type of [Scoreboard], so the
    [Array.isArray] test of the guard holds. *)
Definition validateScoreboard (scoreboard : Scoreboard) : completion :=
  if bool_decide (length (capabilities scoreboard) = 0)
  then Throw noCapabilityError
  else validateScoreboard_loop ∅ (capabilities scoreboard).

(** A capability that breaks none of the rules 2 and 4 of the validator. *)
Definition wellFormed (capability : Capability) : Prop :=
  id capability ≠ "" ∧ description capability ≠ ""
  ∧ state capability ∈ allowedStates.

Global Instance wellFormed_dec (capability : Capability) :
  Decision (wellFormed capability).
Proof. unfold wellFormed. apply _. Defined.

(** A scoreboard whose first capability has a state outside the allowed ones
    and whose second capability has no id. *)
Definition invalidStateFirst : Scoreboard :=
  mkScoreboard 1
    [ mkCapability "a" "first" "bogus" None;
      mkCapability "" "second" "scaffold" None ].

(** ** getScoreCounts, renderSummaryMarkdown *)

(** The numbers the counters can hold: a count, or [NaN] once a property that
    holds no number has been incremented. *)
Inductive number :=
  | Num (n : nat)
  | NaN.

(** [counts[key] += 1]: an absent property reads as [undefined], and
    [undefined + 1] is [NaN]. Only the three properties of the initial object
    are read afterwards. *)
Definition increment (counts : gmap string number) (key : string)
    : gmap string number :=
  <[key := match counts !! key with
           | Some (Num n) => Num (n + 1)
           | _ => NaN
           end]> counts.

Definition getScoreCounts (scoreboard : Scoreboard) : gmap string number :=
  let counts : gmap string number :=
    <["spec-only" := Num 0]> (<["scaffold" := Num 0]> (<["operational" := Num 0]> ∅)) in
  foldl (λ counts capability, increment counts (state capability))
        counts (capabilities scoreboard).

(** A property read inside a template literal. *)
Definition display (value : option number) : string :=
  match value with
  | Some (Num n) => pretty n
  | Some NaN => "NaN"
  | None => "undefined"
  end.

Definition renderSummaryMarkdown (scoreboard : Scoreboard) : string :=
  let counts := getScoreCounts scoreboard in
  let total := length (capabilities scoreboard) in
  let operationalRatio := display (counts !! "operational") +:+ "/" +:+ pretty total in
  JS.join (String JS.LF "")
    [ "- Capabilities tracked: **" +:+ pretty total +:+ "**";
      "- Operational: **" +:+ display (counts !! "operational") +:+ "**";
      "- Scaffold: **" +:+ display (counts !! "scaffold") +:+ "**";
      "- Spec-only: **" +:+ display (counts !! "spec-only") +:+ "**";
      "- Implementation ratio (operational/total): **" +:+ operationalRatio +:+ "**" ].

(** The number of capabilities in a given state. *)
Definition inState (key : string) (capabilities : list Capability) : nat :=
  length (filter (λ capability, state capability = key) capabilities).

(** A scoreboard with two scaffolded capabilities and an operational one. *)
Definition sampleScoreboard : Scoreboard :=
  mkScoreboard 1
    [ mkCapability "parse" "diff parser" "scaffold" None;
      mkCapability "guard" "tracking guard" "operational" None;
      mkCapability "render" "summary" "scaffold" None ].

(** ** enforceSpecToImplementationTracking *)

Definition trackingErrorLines (addedSpecs : list string) : list string :=
  [ "New planning/spec artifacts were added without updating implementation scoreboard.";
    "Added artifacts:" ]
  ++ ((λ artifact, "  - " +:+ artifact) <$> addedSpecs)
  ++ [ "Update " +:+ SCOREBOARD_PATH
         +:+ " in the same change to keep spec-vs-implementation tracking current." ].

Definition enforceSpecToImplementationTracking (entries : list DiffEntry) : completion :=
  let addedSpecs := getAddedSpecArtifacts entries in
  if bool_decide (length addedSpecs = 0) then Normal
  else if negb (hasScoreboardUpdate entries)
  then Throw (JS.join (String JS.LF "") (trackingErrorLines addedSpecs))
  else Normal.

(** ** Further notions used to state properties of the parser *)

(** A status or path as the parser leaves it: trimmed, and without the two
    separators of the input. *)
Definition cleanField (s : string) : Prop :=
  JS.trim s = s ∧ JS.free JS.TAB s = true ∧ JS.free JS.LF s = true.

(** A string that does not start with white space. *)
Definition headed (s : string) : Prop :=
  match s with
  | "" => True
  | String c _ => JS.isWhiteSpace c = false
  end.

(** [p] is the path of an entry that adds a spec artifact. *)
Definition addedSpecPath (entries : list DiffEntry) (p : string) : Prop :=
  ∃ entry, entry ∈ entries ∧ status entry = "A"
           ∧ isSpecArtifact (path entry) = true ∧ path entry = p.

(** The number of capabilities whose state is none of the allowed ones. *)
Definition inNoAllowedState (capabilities : list Capability) : nat :=
  length (filter (λ capability, state capability ∉ allowedStates) capabilities).

(** A scoreboard with a repeated id, and the same capabilities in another
    order, the capability without description first. *)
Definition repeatedId : Scoreboard :=
  mkScoreboard 1
    [ mkCapability "parse" "diff parser" "scaffold" None;
      mkCapability "parse" "again" "operational" None;
      mkCapability "guard" "" "spec-only" None ].

Definition repeatedIdReordered : Scoreboard :=
  mkScoreboard 1
    [ mkCapability "guard" "" "spec-only" None;
      mkCapability "parse" "again" "operational" None;
      mkCapability "parse" "diff parser" "scaffold" None ].

(** ** The command line: determineBaseRef, getDiffEntries, loadScoreboard, main *)

(** What the script asks git: whether [git rev-parse --verify ref] succeeds,
    and what [git diff --name-status base...HEAD] prints for a base ref,
    [None] when the command fails ([execSync] throws). *)
Record Git := mkGit {
  revParseVerify : string → bool;
  diffNameStatus : string → option string
}.

Fixpoint determineBaseRef_loop (git : Git) (branches : list string) : string :=
  match branches with
  | [] => "HEAD~1"
  | branch :: rest =>
      if revParseVerify git ("origin/" +:+ branch)
      then "origin/" +:+ branch
      else determineBaseRef_loop git rest
  end.

Definition determineBaseRef (git : Git) : string :=
  determineBaseRef_loop git ["main"; "master"].

Definition getDiffEntries (git : Git) : list DiffEntry :=
  let baseRef := determineBaseRef git in
  match diffNameStatus git baseRef with
  | Some output =>
      let diffOutput := JS.trim output in
      if bool_decide (diffOutput = "") then [] else parseDiffEntries diffOutput
  | None => []
  end.

(** What reading and parsing a scoreboard file gives: a value of the declared
    type, or the error that [readFileSync] or [JSON.parse] throws. *)
Inductive loaded :=
  | Parsed (scoreboard : Scoreboard)
  | LoadError (message : string).

(** [files path] is what reading and parsing the file at [path] gives. *)
Definition loadScoreboard (files : string → loaded) (path : string) : loaded :=
  files path.

(** The lines [main] logs: the line that reports success, and the summary. *)
Inductive logLine :=
  | GuardPassed
  | Summary (markdown : string).

(** How [main] ends: it returns after logging, or it throws, and then the
    script prints the message of the error and exits with status 1. *)
Inductive mainOutcome :=
  | Returns (log : list logLine)
  | Throws (message : string).

Definition main (git : Git) (files : string → loaded) (argv : list string)
    : mainOutcome :=
  let entries := getDiffEntries git in
  match loadScoreboard files SCOREBOARD_PATH with
  | LoadError message => Throws message
  | Parsed scoreboard =>
      match validateScoreboard scoreboard with
      | Throw message => Throws message
      | Normal =>
          if bool_decide ("--summary" ∈ argv)
          then Returns [Summary (renderSummaryMarkdown scoreboard)]
          else match enforceSpecToImplementationTracking entries with
               | Throw message => Throws message
               | Normal =>
                   Returns [GuardPassed;
                            Summary (renderSummaryMarkdown scoreboard)]
               end
      end
  end.


Definition gitWithoutHistory : Git :=
  mkGit (λ ref, false) (λ base, None).

Definition sampleFiles (path : string) : loaded :=
  if bool_decide (path = SCOREBOARD_PATH) then Parsed sampleScoreboard
  else LoadError "ENOENT: no such file or directory".

(** ** signal-reaction: reactions on issues and comments *)

Module Case.

(** [toUpperCase] of one code unit below 256. Lower-case Latin letters move
    to their capitals; U+00DF becomes the two letters SS; the capitals of
    U+00B5 and U+00FF are code units above 255, written [None] here; every
    other code unit stays. *)
Definition upperUnit (c : ascii) : option string :=
  let n := N_of_ascii c in
  if bool_decide (97 ≤ n ≤ 122)%N then Some (String (ascii_of_N (n - 32)) "")
  else if bool_decide (n = 181)%N then None
  else if bool_decide (n = 223)%N then Some "SS"
  else if bool_decide (n = 247)%N then Some (String c "")
  else if bool_decide (224 ≤ n ≤ 254)%N then Some (String (ascii_of_N (n - 32)) "")
  else if bool_decide (n = 255)%N then None
  else Some (String c "").

(** [s.toUpperCase()], or [None] when the result has a code unit above 255. *)
Fixpoint toUpperCase (s : string) : option string :=
  match s with
  | "" => Some ""
  | String c rest =>
      match upperUnit c, toUpperCase rest with
      | Some upper, Some upperRest => Some (upper +:+ upperRest)
      | _, _ => None
      end
  end.

(** The letters A to Z in lower case, every other code unit unchanged. *)
Definition asciiLowerUnit (c : ascii) : ascii :=
  let n := N_of_ascii c in
  if bool_decide (65 ≤ n ≤ 90)%N then ascii_of_N (n + 32) else c.

Fixpoint asciiLower (s : string) : string :=
  match s with
  | "" => ""
  | String c rest => String (asciiLowerUnit c) (asciiLower rest)
  end.

(** A capital letter of A to Z other than S. *)
Definition capitalNotS (c : ascii) : bool :=
  let n := N_of_ascii c in
  bool_decide (65 ≤ n ≤ 90)%N && negb (bool_decide (n = 83)%N).

Fixpoint allCapitalNotS (s : string) : bool :=
  match s with
  | "" => true
  | String c rest => capitalNotS c && allCapitalNotS rest
  end.

(** The 256 code units of the model. *)
Definition allUnits : list ascii := ascii_of_nat <$> seq 0 256.

(** At a capital [t] other than S: [c] has [t] as its upper case exactly when
    [c] and [t] are the same letter up to the case of A to Z. *)
Definition unitAgree (c t : ascii) : bool :=
  implb (capitalNotS t)
    (Bool.eqb (bool_decide (upperUnit c = Some (String t "")))
              (bool_decide (asciiLowerUnit c = asciiLowerUnit t))).

End Case.

Module SignalReaction.

(** The values ["issue"] and ["comment"] of [ReactionTarget]. *)
Inductive ReactionTarget :=
  | Issue
  | Comment.

Global Instance ReactionTarget_eq_dec : EqDecision ReactionTarget.
Proof. solve_decision. Defined.

Module ReactionState.
Record t := mk {
  reactionId : option Z;
  reactionTarget : ReactionTarget;
  commentId : option Z;
  issueNumber : Z;
  repo : string
}.
End ReactionState.

Module EventContext.
Record t := mk {
  eventName : string;
  issueNumber : Z;
  commentId : option Z;
  repo : string;
  authorAssociation : string
}.
End EventContext.

(** The parts of the event payload the script reads, with the types its
    casts give them; [None] is a property that is absent or [null]. *)
Module CommentObject.
Record t := mk {
  id : option Z;
  body : option string;
  author_association : option string
}.
End CommentObject.

Module IssueObject.
Record t := mk {
  number : option Z;
  title : option string;
  body : option string;
  author_association : option string
}.
End IssueObject.

Module Payload.
Record t := mk {
  comment : option CommentObject.t;
  issue : option IssueObject.t
}.
End Payload.

Definition ALLOWED_ASSOCIATIONS : gset string :=
  {[ "OWNER"; "MEMBER"; "COLLABORATOR" ]}.

(** A string with a code unit above 255 is none of the allowed names. *)
Definition isAuthorizedAssociation (association : string) : bool :=
  match Case.toUpperCase association with
  | Some upper => bool_decide (upper ∈ ALLOWED_ASSOCIATIONS)
  | None => false
  end.

Definition parseEventContext (eventName : string) (payload : Payload.t)
    (repo : string) : EventContext.t :=
  if bool_decide (eventName = "issue_comment") then
    let comment := Payload.comment payload in
    let issue := Payload.issue payload in
    EventContext.mk eventName
      (default 0%Z (issue ≫= IssueObject.number))
      (comment ≫= CommentObject.id)
      repo
      (default "NONE" (comment ≫= CommentObject.author_association))
  else
    let issue := Payload.issue payload in
    EventContext.mk eventName
      (default 0%Z (issue ≫= IssueObject.number))
      None
      repo
      (default "NONE" (issue ≫= IssueObject.author_association)).

Definition resolveReactionTarget (eventName : string) : ReactionTarget :=
  if bool_decide (eventName = "issue_comment") then Comment else Issue.

Definition buildReactionState (context : EventContext.t) (reactionId : option Z)
    : ReactionState.t :=
  ReactionState.mk reactionId
    (resolveReactionTarget (EventContext.eventName context))
    (EventContext.commentId context)
    (EventContext.issueNumber context)
    (EventContext.repo context).

(** A number or [null] where a condition is expected: [null] and 0 are falsy. *)
Definition truthyId (n : option Z) : bool :=
  match n with
  | Some n => bool_decide (n ≠ 0%Z)
  | None => false
  end.

(** A value inside a template literal. *)
Definition showId (n : option Z) : string :=
  match n with
  | Some n => pretty n
  | None => "null"
  end.

Definition showField (field : option string) : string :=
  default "undefined" field.

(** [const [owner, repo] = s.split("/")]: the first two fields, [None] for a
    field that is not there. *)
Definition ownerAndRepo (s : string) : option string * option string :=
  let parts := JS.split "/" s in (parts !! 0, parts !! 1).

Definition buildAddReactionArgs (context : EventContext.t) : list string :=
  let '(owner, repo) := ownerAndRepo (EventContext.repo context) in
  if bool_decide (EventContext.eventName context = "issue_comment")
     && truthyId (EventContext.commentId context)
  then
    [ "api";
      "repos/" +:+ showField owner +:+ "/" +:+ showField repo
        +:+ "/issues/comments/" +:+ showId (EventContext.commentId context)
        +:+ "/reactions";
      "-f"; "content=eyes"; "--jq"; ".id" ]
  else
    [ "api";
      "repos/" +:+ showField owner +:+ "/" +:+ showField repo
        +:+ "/issues/" +:+ pretty (EventContext.issueNumber context)
        +:+ "/reactions";
      "-f"; "content=eyes"; "--jq"; ".id" ].

Definition buildRemoveReactionArgs (state : ReactionState.t)
    : option (list string) :=
  match ReactionState.reactionId state with
  | None => None
  | Some reactionId =>
      let '(owner, repo) := ownerAndRepo (ReactionState.repo state) in
      if bool_decide (ReactionState.reactionTarget state = Comment)
         && truthyId (ReactionState.commentId state)
      then
        Some [ "api"; "--method"; "DELETE";
               "repos/" +:+ showField owner +:+ "/" +:+ showField repo
                 +:+ "/issues/comments/" +:+ showId (ReactionState.commentId state)
                 +:+ "/reactions/" +:+ pretty reactionId ]
      else
        Some [ "api"; "--method"; "DELETE";
               "repos/" +:+ showField owner +:+ "/" +:+ showField repo
                 +:+ "/issues/" +:+ pretty (ReactionState.issueNumber state)
                 +:+ "/reactions/" +:+ pretty reactionId ]
  end.

Definition extractPrompt (eventName : string) (payload : Payload.t) : string :=
  if bool_decide (eventName = "issue_comment") then
    let comment := Payload.comment payload in
    default "" (comment ≫= CommentObject.body)
  else
    let issue := Payload.issue payload in
    let title := default "" (issue ≫= IssueObject.title) in
    let body := default "" (issue ≫= IssueObject.body) in
    if bool_decide (body ≠ "")
    then title +:+ String JS.LF (String JS.LF "") +:+ body
    else title.

(** Where the association of the author is read: in the comment for a
    comment event, in the issue for any other event. *)
Definition associationSource (eventName : string) (payload : Payload.t)
    : option string :=
  if bool_decide (eventName = "issue_comment")
  then Payload.comment payload ≫= CommentObject.author_association
  else Payload.issue payload ≫= IssueObject.author_association.

(** The title and the body of the issue, empty when absent. *)
Definition issueTitle (payload : Payload.t) : string :=
  default "" (Payload.issue payload ≫= IssueObject.title).

Definition issueBody (payload : Payload.t) : string :=
  default "" (Payload.issue payload ≫= IssueObject.body).

(** [process.argv.indexOf(flag)], with [None] for -1. *)
Fixpoint indexOf (argv : list string) (flag : string) : option nat :=
  match argv with
  | [] => None
  | arg :: rest =>
      if bool_decide (arg = flag) then Some 0
      else S <$> indexOf rest flag
  end.

Definition getArgValue (argv : list string) (flag : string) : option string :=
  match indexOf argv flag with
  | Some idx => argv !! (idx + 1)
  | None => None
  end.

(** What a step of the workflow finds around it: its arguments, the
    environment, what reading and parsing the event file and the state file
    give ([None], or the message of the error, when that throws), and
    whether a file can be written. *)
Record Host := mkHost {
  argv : list string;
  env : string → option string;
  readPayload : string → option Payload.t;
  readState : string → ReactionState.t + string;
  writable : string → bool
}.

(** How a step ends: it returns, it leaves through [process.exit(1)], or an
    exception escapes it. *)
Inductive ending :=
  | Returned
  | Exit1
  | Threw.

(** What a step did: the lines it logged, the lines it wrote to the error
    stream, the state it wrote and the file it wrote it to, and how it
    ended. *)
Record Outcome := mkOutcome {
  stdout : list string;
  stderr : list string;
  written : option (string * ReactionState.t);
  finish : ending
}.

(** A variable or argument that is set and not empty. *)
Definition present (value : option string) : option string :=
  if JS.truthy value then value else None.

Definition addReaction (host : Host) : Outcome :=
  let stateFile := getArgValue (argv host) "--state-file" in
  match present (env host "GITHUB_EVENT_PATH"),
        present (env host "GITHUB_EVENT_NAME"),
        present (env host "GITHUB_REPOSITORY") with
  | Some eventPath, Some eventName, Some repo =>
      match present stateFile with
      | None => mkOutcome [] ["--state-file is required"] None Exit1
      | Some stateFile =>
          match readPayload host eventPath with
          | None => mkOutcome [] [] None Threw
          | Some payload =>
              let context := parseEventContext eventName payload repo in
              if negb (isAuthorizedAssociation
                         (EventContext.authorAssociation context))
              then
                let skipped :=
                  "Skipping reaction: author association "
                    +:+ String JS.QUOTE (EventContext.authorAssociation context)
                    +:+ String JS.QUOTE " is not authorized" in
                let state := buildReactionState context None in
                if writable host stateFile
                then mkOutcome [skipped] [] (Some (stateFile, state)) Returned
                else mkOutcome [skipped] [] None Threw
              else
                let args := buildAddReactionArgs context in
                let adding := "Adding eyes reaction: gh " +:+ JS.join " " args in
                let state := buildReactionState context None in
                if writable host stateFile
                then mkOutcome
                       [adding; "Reaction state written to " +:+ stateFile] []
                       (Some (stateFile, state)) Returned
                else mkOutcome [adding] [] None Threw
          end
      end
  | _, _, _ =>
      mkOutcome [] ["Missing required GitHub Actions environment variables"]
        None Exit1
  end.

Definition removeReaction (host : Host) : Outcome :=
  match present (getArgValue (argv host) "--state-file") with
  | None => mkOutcome [] ["--state-file is required"] None Exit1
  | Some stateFile =>
      match readState host stateFile with
      | inl state =>
          match buildRemoveReactionArgs state with
          | None =>
              mkOutcome ["No reaction to remove (reactionId is null)"] []
                None Returned
          | Some args =>
              mkOutcome ["Removing reaction: gh " +:+ JS.join " " args] []
                None Returned
          end
      | inr message =>
          mkOutcome [] ["Warning: reaction cleanup failed: " +:+ message]
            None Returned
      end
  end.

(** A workflow run by an owner who comments on issue 42 of [org/repo]. *)
Definition ownerComment : Host :=
  mkHost ["node"; "signal-reaction.ts"; "add"; "--state-file"; "/tmp/state.json"]
    (λ name, if bool_decide (name = "GITHUB_EVENT_PATH") then Some "/tmp/event.json"
             else if bool_decide (name = "GITHUB_EVENT_NAME") then Some "issue_comment"
             else if bool_decide (name = "GITHUB_REPOSITORY") then Some "org/repo"
             else None)
    (λ path, Some (Payload.mk
                     (Some (CommentObject.mk (Some 100%Z) (Some "explain")
                                             (Some "OWNER")))
                     (Some (IssueObject.mk (Some 42%Z) None None None))))
    (λ path, inr "ENOENT")
    (λ path, true).

End SignalReaction.

(** * Properties *)

(** ** Strings *)

Local Arguments String.append !_ _ / : simpl nomatch.

Section strings.
Implicit Types (s t : string) (c : ascii).

Lemma append_nil_r s : s +:+ "" = s.
Proof. induction s; simpl; by f_equal. Qed.

Lemma append_assoc s t u : (s +:+ t) +:+ u = s +:+ t +:+ u.
Proof. induction s; simpl; by f_equal. Qed.

Lemma startsWith_spec s p : JS.startsWith s p = true ↔ ∃ r, s = p +:+ r.
Proof.
  revert s. induction p as [|a p IH]; intros s; simpl.
  - split; [by exists s | by destruct s].
  - destruct s as [|b s]; simpl.
    + split; [done | by intros [r ?]].
    + rewrite andb_true_iff, bool_decide_eq_true, IH. split.
      * intros [-> [r ->]]. by exists r.
      * intros [r [= -> ->]]. eauto.
Qed.

Lemma endsWith_spec s p : JS.endsWith s p = true ↔ ∃ q, s = q +:+ p.
Proof.
  induction s as [|b s IH]; simpl.
  - rewrite orb_false_r, bool_decide_eq_true. split.
    + intros <-. by exists "".
    + intros [[|??] H]; simpl in H; [done | discriminate].
  - rewrite orb_true_iff, bool_decide_eq_true, IH. split.
    + intros [<- | [q ->]]; [by exists "" | by exists (String b q)].
    + intros [[|a q] H]; simpl in H; [by left | right].
      injection H as -> ->. by exists q.
Qed.

Lemma split_cons sep s : ∃ field fields, JS.split sep s = field :: fields.
Proof.
  induction s as [|c s (f & fs & IH)]; simpl; [by eauto|].
  case_decide; [by eauto|]. rewrite IH. eauto.
Qed.

Lemma split_free sep s : JS.free sep s = true → JS.split sep s = [s].
Proof.
  induction s as [|c s IH]; simpl; [done|].
  rewrite andb_true_iff, bool_decide_eq_true. intros [? ?].
  rewrite decide_False, IH by done. done.
Qed.

Lemma split_app sep s t :
  JS.free sep s = true →
  JS.split sep (s +:+ String sep t) = s :: JS.split sep t.
Proof.
  induction s as [|c s IH]; simpl.
  - intros _. by rewrite decide_True.
  - rewrite andb_true_iff, bool_decide_eq_true. intros [? ?].
    rewrite decide_False, IH by done. done.
Qed.

(** A line has fewer than two fields exactly when it has no separator. *)
Lemma split_length_lt_2 sep s :
  length (JS.split sep s) < 2 ↔ JS.free sep s = true.
Proof.
  split; [|intros H; rewrite split_free by done; simpl; lia].
  induction s as [|c s IH]; simpl; [done|].
  destruct (split_cons sep s) as (f & fs & Hs).
  case_decide as Hc.
  - rewrite Hs. simpl. lia.
  - rewrite Hs in *. simpl in *. intros Hlen.
    rewrite IH by done. rewrite andb_true_r. by apply bool_decide_eq_true.
Qed.

End strings.

Lemma free_app c s t :
  JS.free c (s +:+ t) = JS.free c s && JS.free c t.
Proof. induction s as [|d s IH]; simpl; [done|]. by rewrite IH, andb_assoc. Qed.

Lemma free_join c sep fields :
  JS.free c sep = true →
  Forall (λ field, JS.free c field = true) fields →
  JS.free c (JS.join sep fields) = true.
Proof.
  intros Hsep. induction 1 as [|f [|g fs] Hf Hfs IH]; [done..|].
  change (JS.join sep (f :: g :: fs)) with (f +:+ sep +:+ JS.join sep (g :: fs)).
  by rewrite !free_app, Hf, Hsep, IH.
Qed.

(** Splitting undoes joining when no field holds the separator. *)
Lemma split_join sep field fields :
  Forall (λ field, JS.free sep field = true) (field :: fields) →
  JS.split sep (JS.join (String sep "") (field :: fields)) = field :: fields.
Proof.
  revert field. induction fields as [|g fs IH]; intros f Hfree.
  - apply split_free. by inversion Hfree.
  - change (JS.join (String sep "") (f :: g :: fs))
      with (f +:+ String sep (JS.join (String sep "") (g :: fs))).
    inversion Hfree as [|?? Hf Hrest]; subst.
    by rewrite split_app, IH.
Qed.

(** ** parseDiffEntries *)

Section parse.
Implicit Types (entries : list DiffEntry) (line : string).

(** The entries a line contributes do not depend on the entries before it. *)
Lemma parseDiffEntries_line_app entries line :
  parseDiffEntries_line entries line = entries ++ parseDiffEntries_line [] line.
Proof.
  unfold parseDiffEntries_line, push.
  repeat case_match; simpl; by rewrite ?app_nil_r, <-?app_assoc.
Qed.

Lemma parseDiffEntries_fold entries (lines : list string) :
  foldl parseDiffEntries_line entries lines
  = entries ++ (lines ≫= parseDiffEntries_line []).
Proof.
  revert entries. induction lines as [|line lines IH]; intros entries; simpl.
  - by rewrite app_nil_r.
  - rewrite IH, (parseDiffEntries_line_app entries line). by rewrite <-app_assoc.
Qed.

Lemma parseDiffEntries_lines text :
  parseDiffEntries text = JS.split JS.LF text ≫= parseDiffEntries_line [].
Proof. unfold parseDiffEntries. by rewrite parseDiffEntries_fold. Qed.

Lemma parseDiffEntries_line_short entries line :
  length (JS.split JS.TAB line) < 2 → parseDiffEntries_line entries line = entries.
Proof.
  unfold parseDiffEntries_line. intros Hlen.
  destruct (JS.split JS.TAB line) as [|? [|??]]; simpl in *; [done..|lia].
Qed.

Lemma parseDiffEntries_line_rename st (paths : list string) :
  Forall (λ field, JS.free JS.TAB field = true) (st :: paths) →
  JS.startsWith (JS.trim st) "R" || JS.startsWith (JS.trim st) "C" = true →
  parseDiffEntries_line [] (JS.join (String JS.TAB "") (st :: paths))
  = (λ p, mkDiffEntry (JS.trim st) (JS.trim p)) <$> availablePaths paths.
Proof.
  intros Hfree Hst. unfold parseDiffEntries_line.
  rewrite split_join by done.
  destruct paths as [|old [|new paths]]; [done|..]; rewrite Hst; simpl; [done|].
  unfold push. destruct (decide (new = "")) as [->|Hnew]; [done|].
  by rewrite bool_decide_true, bool_decide_false.
Qed.

Lemma parseDiffEntries_one_line line :
  JS.free JS.LF line = true →
  parseDiffEntries line = parseDiffEntries_line [] line.
Proof.
  intros Hfree. rewrite parseDiffEntries_lines, split_free by done.
  simpl. by rewrite app_nil_r.
Qed.

Lemma skippedLine_short line :
  skippedLine line = true → length (JS.split JS.TAB line) < 2.
Proof.
  unfold skippedLine. rewrite orb_true_iff, !bool_decide_eq_true.
  intros [-> | ?]; [simpl; lia | done].
Qed.

(** C7: the rename line [R100 <TAB> old/a.md <TAB> new/a.md] parses to the two
    entries (R100, old/a.md) and (R100, new/a.md), in that order; and in
    general a line whose trimmed status starts with R or C yields one entry
    per available path field (the first path field, and the second when it is
    there and not empty), each with the trimmed status of the line. *)
Theorem parseDiffEntries_rename_copy :
  parseDiffEntries renameLine
  = [mkDiffEntry "R100" "old/a.md"; mkDiffEntry "R100" "new/a.md"]
  ∧ ∀ (st : string) (paths : list string),
      Forall (λ field, JS.free JS.TAB field = true ∧ JS.free JS.LF field = true)
             (st :: paths) →
      JS.startsWith (JS.trim st) "R" || JS.startsWith (JS.trim st) "C" = true →
      parseDiffEntries (JS.join (String JS.TAB "") (st :: paths))
      = (λ p, mkDiffEntry (JS.trim st) (JS.trim p)) <$> availablePaths paths.
Proof.
  split; [by vm_compute|]. intros st paths Hfree Hst.
  rewrite parseDiffEntries_one_line.
  - apply parseDiffEntries_line_rename; [|done].
    eapply Forall_impl; [exact Hfree|]. by intros ? [? _].
  - apply free_join; [done|].
    eapply Forall_impl; [exact Hfree|]. by intros ? [_ ?].
Qed.

Lemma parseDiffEntries_rename_copy_witness :
  Forall (λ field, JS.free JS.TAB field = true ∧ JS.free JS.LF field = true)
         ["C75"; "src/a.ts"; "src/b.ts"]
  ∧ JS.startsWith (JS.trim "C75") "R" || JS.startsWith (JS.trim "C75") "C" = true
  ∧ parseDiffEntries (JS.join (String JS.TAB "") ["C75"; "src/a.ts"; "src/b.ts"])
    = (λ p, mkDiffEntry (JS.trim "C75") (JS.trim p))
        <$> availablePaths ["src/a.ts"; "src/b.ts"].
Proof.
  assert (Forall (λ field, JS.free JS.TAB field = true ∧ JS.free JS.LF field = true)
                 ["C75"; "src/a.ts"; "src/b.ts"]) as Hfree.
  { repeat constructor. }
  split; [exact Hfree|]. split; [reflexivity|].
  exact (proj2 parseDiffEntries_rename_copy "C75" ["src/a.ts"; "src/b.ts"]
           Hfree eq_refl).
Defined.

(** C8: in every input text, a blank line and a line with fewer than two
    tab-separated fields leave the entries as they are, so the result is that
    of the remaining lines alone; parsing returns a list for every text and
    has no error outcome. *)
Theorem parseDiffEntries_skips_blank_and_short (text : string) :
  (∀ line entries,
     line = "" ∨ length (JS.split JS.TAB line) < 2 →
     parseDiffEntries_line entries line = entries)
  ∧ parseDiffEntries text
    = foldl parseDiffEntries_line []
        (filter (λ line, skippedLine line = false) (JS.split JS.LF text)).
Proof.
  split.
  - intros line entries [-> | Hlen]; [done|].
    by apply parseDiffEntries_line_short.
  - unfold parseDiffEntries. rewrite !parseDiffEntries_fold. f_equal.
    induction (JS.split JS.LF text) as [|line lines IH]; [done|].
    rewrite filter_cons. case_decide as Hskip; rewrite !bind_cons.
    + by rewrite IH.
    + apply not_false_is_true, skippedLine_short in Hskip.
      by rewrite (parseDiffEntries_line_short [] line Hskip).
Qed.

End parse.

(** ** isSpecArtifact *)

(** C2, counterexample: the planning area is [.GITHUB-MODE/docs/planning/], so
    [docs/planning/foo.md] is no spec artifact. *)
Lemma isSpecArtifact_docs_planning_foo :
  isSpecArtifact "docs/planning/foo.md" = false.
Proof. reflexivity. Qed.

(** C2, amended: [.GITHUB-MODE/docs/planning/foo.md] is a spec artifact; the
    index file of the area, a file of the area with another extension and a
    Markdown file outside the area are not, and neither are
    [docs/planning/README.md], [docs/planning/foo.txt] and [other/foo.md]; a
    path is a spec artifact iff it starts with [.GITHUB-MODE/docs/planning/],
    ends with [.md] and does not end with [/README.md]. *)
Theorem isSpecArtifact_spec :
  isSpecArtifact ".GITHUB-MODE/docs/planning/foo.md" = true
  ∧ isSpecArtifact ".GITHUB-MODE/docs/planning/README.md" = false
  ∧ isSpecArtifact ".GITHUB-MODE/docs/planning/foo.txt" = false
  ∧ isSpecArtifact ".GITHUB-MODE/other/foo.md" = false
  ∧ isSpecArtifact "docs/planning/README.md" = false
  ∧ isSpecArtifact "docs/planning/foo.txt" = false
  ∧ isSpecArtifact "other/foo.md" = false
  ∧ ∀ path : string,
      isSpecArtifact path = true ↔
        (∃ rest, path = SPEC_ARTIFACT_PREFIX +:+ rest)
        ∧ (∃ stem, path = stem +:+ ".md")
        ∧ ¬ (∃ dir, path = dir +:+ "/README.md").
Proof.
  repeat (split; [reflexivity|]). intros path. unfold isSpecArtifact.
  rewrite !andb_true_iff, negb_true_iff, <-not_true_iff_false.
  rewrite startsWith_spec, !endsWith_spec. tauto.
Qed.

(** ** hasScoreboardUpdate *)

Lemma hasScoreboardUpdate_true (entries : list DiffEntry) :
  hasScoreboardUpdate entries = true ↔
    ∃ entry, entry ∈ entries ∧ path entry = SCOREBOARD_PATH ∧ status entry ≠ "D".
Proof.
  unfold hasScoreboardUpdate. rewrite existsb_exists. split.
  - intros (entry & Hin & Htest). exists entry.
    apply andb_true_iff in Htest as [Hpath Hstatus].
    apply bool_decide_eq_true in Hpath, Hstatus.
    by rewrite list_elem_of_In.
  - intros (entry & Hin & Hpath & Hstatus). exists entry.
    rewrite <-list_elem_of_In, andb_true_iff, !bool_decide_eq_true. done.
Qed.

(** C5: [hasScoreboardUpdate] answers true iff some entry has the scoreboard
    path as its path and a status other than D; for the one entry that
    deletes the scoreboard it answers false. *)
Theorem hasScoreboardUpdate_spec :
  (∀ entries : list DiffEntry,
     hasScoreboardUpdate entries = true ↔
       ∃ entry, entry ∈ entries
                ∧ path entry = SCOREBOARD_PATH ∧ status entry ≠ "D")
  ∧ hasScoreboardUpdate [mkDiffEntry "D" SCOREBOARD_PATH] = false.
Proof. split; [apply hasScoreboardUpdate_true | reflexivity]. Qed.

(** ** getAddedSpecArtifacts *)

Section added.
Implicit Types (entries : list DiffEntry) (additions : list string).

Lemma setAdd_elem_of additions x y :
  y ∈ setAdd additions x ↔ y ∈ additions ∨ y = x.
Proof.
  unfold setAdd. case_decide as Hx.
  - split; [by left | by intros [? | ->]].
  - rewrite elem_of_app, list_elem_of_singleton. done.
Qed.

Lemma setAdd_NoDup additions x : NoDup additions → NoDup (setAdd additions x).
Proof.
  unfold setAdd. case_decide as Hx; [done|]. intros Hnd.
  apply NoDup_app. split_and!; [done| |apply NoDup_singleton].
  intros y Hy ->%list_elem_of_singleton. done.
Qed.

Lemma additions_elem_of entries additions p :
  p ∈ foldl getAddedSpecArtifacts_entry additions entries ↔
    p ∈ additions
    ∨ ∃ entry, entry ∈ entries ∧ status entry = "A"
               ∧ isSpecArtifact (path entry) = true ∧ path entry = p.
Proof.
  revert additions. induction entries as [|e entries IH]; intros additions; simpl.
  - split; [by left|]. intros [? | (? & []%elem_of_nil & _)]. done.
  - rewrite IH. unfold getAddedSpecArtifacts_entry.
    destruct (bool_decide (status e = "A") && isSpecArtifact (path e)) eqn:Htest.
    + apply andb_true_iff in Htest as [Hst%bool_decide_eq_true Hspec].
      rewrite setAdd_elem_of. split.
      * intros [[? | ->] | (e' & ? & ?)]; [by left | right..].
        -- exists e. by rewrite elem_of_cons; auto.
        -- exists e'. by rewrite elem_of_cons; auto.
      * intros [? | (e' & [-> | ?]%elem_of_cons & Hs & Hi & <-)]; eauto 10.
    + split.
      * intros [? | (e' & ? & ?)]; [by left | right].
        exists e'. by rewrite elem_of_cons; auto.
      * intros [? | (e' & [-> | ?]%elem_of_cons & Hs & Hi & <-)]; eauto 10.
        apply andb_false_iff in Htest as [Hf%bool_decide_eq_false | Hf]; congruence.
Qed.

Lemma additions_NoDup entries additions :
  NoDup additions → NoDup (foldl getAddedSpecArtifacts_entry additions entries).
Proof.
  revert additions. induction entries as [|e entries IH]; intros additions Hnd; [done|].
  simpl. apply IH. unfold getAddedSpecArtifacts_entry.
  case_match; [by apply setAdd_NoDup | done].
Qed.

Lemma toSorted_Permutation (l : list string) : toSorted l ≡ₚ l.
Proof. apply merge_sort_Permutation. Qed.

Lemma toSorted_Sorted (l : list string) : StronglySorted String.le (toSorted l).
Proof. apply StronglySorted_merge_sort; apply _. Qed.

(** Sorting forgets the order of its input. *)
Lemma toSorted_unique (l k : list string) : l ≡ₚ k → toSorted l = toSorted k.
Proof.
  intros Hperm. apply (StronglySorted_unique String.le); [apply toSorted_Sorted..|].
  by rewrite !toSorted_Permutation.
Qed.

(** C6: the result of [getAddedSpecArtifacts] holds exactly the paths of the
    entries whose status is A and whose path is a spec artifact, each once,
    in ascending order of code units; every permutation of the entries gives
    the same result. *)
Theorem getAddedSpecArtifacts_spec entries :
  (∀ p, p ∈ getAddedSpecArtifacts entries ↔
        ∃ entry, entry ∈ entries ∧ status entry = "A"
                 ∧ isSpecArtifact (path entry) = true ∧ path entry = p)
  ∧ NoDup (getAddedSpecArtifacts entries)
  ∧ StronglySorted String.le (getAddedSpecArtifacts entries)
  ∧ ∀ entries', entries ≡ₚ entries' →
      getAddedSpecArtifacts entries' = getAddedSpecArtifacts entries.
Proof.
  assert (∀ es p, p ∈ getAddedSpecArtifacts es ↔
            ∃ entry, entry ∈ es ∧ status entry = "A"
                     ∧ isSpecArtifact (path entry) = true ∧ path entry = p) as Helem.
  { intros es p. unfold getAddedSpecArtifacts.
    rewrite toSorted_Permutation, additions_elem_of. split; [|by right].
    intros [[]%elem_of_nil | ?]. done. }
  split_and!.
  - apply Helem.
  - unfold getAddedSpecArtifacts. rewrite toSorted_Permutation.
    apply additions_NoDup, NoDup_nil_2.
  - apply toSorted_Sorted.
  - intros entries' Hperm. unfold getAddedSpecArtifacts. apply toSorted_unique.
    apply NoDup_Permutation; [by apply additions_NoDup, NoDup_nil_2..|].
    intros p. rewrite !additions_elem_of.
    by setoid_rewrite Hperm.
Qed.

End added.

(** ** enforceSpecToImplementationTracking *)

Section enforce.
Implicit Types (entries : list DiffEntry) (s t : string).

Lemma occursIn_refl s : JS.occursIn s s.
Proof. exists "", "". simpl. by rewrite append_nil_r. Qed.

Lemma occursIn_app_l x s t : JS.occursIn x s → JS.occursIn x (s +:+ t).
Proof.
  intros (before & after & ->). exists before, (after +:+ t).
  by rewrite !append_assoc.
Qed.

Lemma occursIn_app_r x s t : JS.occursIn x t → JS.occursIn x (s +:+ t).
Proof.
  intros (before & after & ->). exists (s +:+ before), after.
  by rewrite !append_assoc.
Qed.

Lemma occursIn_join x sep (fields : list string) :
  x ∈ fields → JS.occursIn x (JS.join sep fields).
Proof.
  induction fields as [|f [|g fs] IH]; [by intros ?%elem_of_nil|..].
  - intros ->%list_elem_of_singleton. apply occursIn_refl.
  - intros [-> | Hin]%elem_of_cons;
      change (JS.join sep (f :: g :: fs)) with (f +:+ sep +:+ JS.join sep (g :: fs)).
    + apply occursIn_app_l, occursIn_refl.
    + by apply occursIn_app_r, occursIn_app_r, IH.
Qed.

Lemma occursIn_trans x s t : JS.occursIn x s → JS.occursIn s t → JS.occursIn x t.
Proof.
  intros Hx (before & after & ->). by apply occursIn_app_r, occursIn_app_l.
Qed.

(** What [enforceSpecToImplementationTracking] does, by the two tests. *)
Lemma enforce_cases entries :
  enforceSpecToImplementationTracking entries
  = if bool_decide (getAddedSpecArtifacts entries = [])
    then Normal
    else if hasScoreboardUpdate entries then Normal
    else Throw (JS.join (String JS.LF "")
                  (trackingErrorLines (getAddedSpecArtifacts entries))).
Proof.
  unfold enforceSpecToImplementationTracking.
  destruct (getAddedSpecArtifacts entries) as [|p ps]; [done|].
  simpl. by destruct (hasScoreboardUpdate entries).
Qed.

Lemma trackingError_lists_artifact (addedSpecs : list string) p :
  p ∈ addedSpecs →
  JS.occursIn ("  - " +:+ p) (JS.join (String JS.LF "") (trackingErrorLines addedSpecs)).
Proof.
  intros Hp. apply occursIn_join. unfold trackingErrorLines.
  rewrite !elem_of_app. right; left. apply list_elem_of_fmap. eauto.
Qed.

Lemma trackingError_names_scoreboard (addedSpecs : list string) :
  JS.occursIn SCOREBOARD_PATH
    (JS.join (String JS.LF "") (trackingErrorLines addedSpecs)).
Proof.
  eapply occursIn_trans; [|apply occursIn_join].
  2:{ unfold trackingErrorLines. rewrite !elem_of_app. right; right.
      apply list_elem_of_singleton. reflexivity. }
  apply occursIn_app_r, occursIn_app_l, occursIn_refl.
Qed.

(** C1: the guard returns normally when no spec artifact was added; it throws
    exactly when some spec artifact was added and the scoreboard was not
    updated; the message of the error then lists every added spec artifact
    and names the scoreboard path. *)
Theorem enforceSpecToImplementationTracking_spec entries :
  (getAddedSpecArtifacts entries = [] →
     enforceSpecToImplementationTracking entries = Normal)
  ∧ ((∃ message, enforceSpecToImplementationTracking entries = Throw message) ↔
       getAddedSpecArtifacts entries ≠ [] ∧ hasScoreboardUpdate entries = false)
  ∧ (∀ message,
       enforceSpecToImplementationTracking entries = Throw message →
       message = JS.join (String JS.LF "")
                   (trackingErrorLines (getAddedSpecArtifacts entries))
       ∧ (∀ p, p ∈ getAddedSpecArtifacts entries →
               JS.occursIn ("  - " +:+ p) message ∧ JS.occursIn p message)
       ∧ JS.occursIn SCOREBOARD_PATH message).
Proof.
  rewrite enforce_cases. split_and!.
  - intros ->. done.
  - case_bool_decide as Hadded.
    + split; [by intros [? ?] | by intros [? _]].
    + destruct (hasScoreboardUpdate entries).
      * split; [by intros [? ?] | by intros [_ ?]].
      * split; [done | eauto].
  - intros message Hthrow.
    case_bool_decide; [done|].
    destruct (hasScoreboardUpdate entries); [done|].
    assert (message = JS.join (String JS.LF "")
              (trackingErrorLines (getAddedSpecArtifacts entries))) as ->
      by congruence.
    split_and!; [done| |apply trackingError_names_scoreboard].
    intros p Hp. split.
    + by apply trackingError_lists_artifact.
    + eapply occursIn_trans; [|by apply trackingError_lists_artifact].
      apply occursIn_app_r, occursIn_refl.
Qed.

(** C9: when some entry has the scoreboard path and a status that starts with
    R, as the old side of a rename of the scoreboard has,
    [hasScoreboardUpdate] answers true and the guard returns normally,
    whichever spec artifacts were added. *)
Theorem rename_of_scoreboard_satisfies_guard entries (entry : DiffEntry) :
  entry ∈ entries →
  path entry = SCOREBOARD_PATH →
  JS.startsWith (status entry) "R" = true →
  hasScoreboardUpdate entries = true
  ∧ enforceSpecToImplementationTracking entries = Normal.
Proof.
  intros Hin Hpath Hstatus.
  assert (hasScoreboardUpdate entries = true) as Hupdate.
  { apply hasScoreboardUpdate_true. exists entry. split_and!; [done..|].
    intros HD. by rewrite HD in Hstatus. }
  split; [done|]. rewrite enforce_cases, Hupdate. by case_bool_decide.
Qed.

Lemma rename_of_scoreboard_satisfies_guard_witness :
  mkDiffEntry "R100" SCOREBOARD_PATH ∈ parseDiffEntries renamedScoreboardDiff
  ∧ getAddedSpecArtifacts (parseDiffEntries renamedScoreboardDiff)
    = [".GITHUB-MODE/docs/planning/x.md"]
  ∧ hasScoreboardUpdate (parseDiffEntries renamedScoreboardDiff) = true
  ∧ enforceSpecToImplementationTracking (parseDiffEntries renamedScoreboardDiff)
    = Normal.
Proof.
  assert (mkDiffEntry "R100" SCOREBOARD_PATH
            ∈ parseDiffEntries renamedScoreboardDiff) as Hin.
  { apply list_elem_of_In. vm_compute. left. reflexivity. }
  split; [exact Hin|]. split; [vm_compute; reflexivity|].
  exact (rename_of_scoreboard_satisfies_guard
           (parseDiffEntries renamedScoreboardDiff)
           (mkDiffEntry "R100" SCOREBOARD_PATH) Hin eq_refl eq_refl).
Defined.

End enforce.

(** ** validateScoreboard *)

Section validate.
Implicit Types (scoreboard : Scoreboard) (capability : Capability).
Implicit Types (ids : gset string) (caps : list Capability).

(** The body of the loop at a capability, by cases. *)
Lemma validateScoreboard_loop_cons ids capability caps :
  validateScoreboard_loop ids (capability :: caps)
  = if bool_decide (id capability = "" ∨ description capability = "")
    then Throw emptyFieldError
    else if bool_decide (id capability ∈ ids)
    then Throw (duplicateIdError capability)
    else if bool_decide (state capability ∉ allowedStates)
    then Throw (invalidStateError capability)
    else validateScoreboard_loop ({[id capability]} ∪ ids) caps.
Proof.
  simpl. destruct (decide (id capability = "")) as [Hid|Hid].
  { rewrite (bool_decide_true (id capability = "")) by done. simpl.
    by rewrite bool_decide_true by auto. }
  destruct (decide (description capability = "")) as [Hd|Hd].
  { rewrite (bool_decide_true (description capability = "")) by done.
    rewrite orb_true_r. by rewrite bool_decide_true by auto. }
  rewrite (bool_decide_false (id capability = "")) by done.
  rewrite (bool_decide_false (description capability = "")) by done.
  rewrite (bool_decide_false (_ ∨ _)) by tauto. simpl.
  destruct (decide (id capability ∈ ids)) as [Hin|Hin].
  { by rewrite bool_decide_true. }
  rewrite (bool_decide_false (id capability ∈ ids)) by done.
  destruct (decide (state capability ∈ allowedStates)) as [Hst|Hst].
  - rewrite (bool_decide_true (state capability ∈ allowedStates)) by done.
    by rewrite bool_decide_false by auto.
  - rewrite (bool_decide_false (state capability ∈ allowedStates)) by done.
    by rewrite bool_decide_true by auto.
Qed.

(** The loop runs through a prefix of well-formed capabilities with fresh,
    distinct ids, and collects their ids. *)
Lemma validateScoreboard_loop_prefix ids (pre rest : list Capability) :
  Forall wellFormed pre →
  NoDup (id <$> pre) →
  (∀ capability, capability ∈ pre → id capability ∉ ids) →
  validateScoreboard_loop ids (pre ++ rest)
  = validateScoreboard_loop (list_to_set (id <$> pre) ∪ ids) rest.
Proof.
  revert ids. induction pre as [|c pre IH]; intros ids Hwf Hnd Hfresh.
  - simpl. by rewrite union_empty_l_L.
  - inversion Hwf as [|?? (Hid & Hd & Hst) Hwf']; subst.
    rewrite fmap_cons in Hnd. apply NoDup_cons in Hnd as [Hc Hnd].
    change ((c :: pre) ++ rest) with (c :: (pre ++ rest)).
    rewrite validateScoreboard_loop_cons.
    rewrite bool_decide_false by tauto.
    rewrite bool_decide_false by (apply Hfresh, elem_of_cons; by left).
    rewrite bool_decide_false by tauto.
    rewrite IH; [|done..|].
    + rewrite fmap_cons, list_to_set_cons. f_equal.
      rewrite (comm_L (∪) {[id c]} (list_to_set (id <$> pre))).
      by rewrite (assoc_L (∪)).
    + intros c' Hc' [Heq%elem_of_singleton | Hids]%elem_of_union.
      * apply Hc. rewrite <-Heq. apply list_elem_of_fmap. eauto.
      * apply (Hfresh c'); [apply elem_of_cons; by right | done].
Qed.

Lemma validateScoreboard_loop_Normal ids caps :
  validateScoreboard_loop ids caps = Normal ↔
    Forall wellFormed caps ∧ NoDup (id <$> caps)
    ∧ ∀ capability, capability ∈ caps → id capability ∉ ids.
Proof.
  revert ids. induction caps as [|c caps IH]; intros ids.
  - simpl. split; [|done]. intros _. split_and!; [constructor..|].
    by intros ? ?%elem_of_nil.
  - rewrite validateScoreboard_loop_cons, fmap_cons, NoDup_cons, Forall_cons.
    unfold wellFormed at 1.
    repeat case_bool_decide.
    + split; [done|]. tauto.
    + split; [done|]. intros (_ & _ & Hfresh).
      destruct (Hfresh c); [apply elem_of_cons; by left | done].
    + split; [done|]. tauto.
    + assert (state c ∈ allowedStates) as Hst
        by (destruct (decide (state c ∈ allowedStates)); tauto).
      assert (id c ≠ "" ∧ description c ≠ "") as [Hid Hd] by tauto.
      rewrite IH. split.
      * intros (Hwf & Hnd & Hfresh). split_and!; try done.
        -- intros (c' & Heq & Hc')%list_elem_of_fmap.
           apply (Hfresh c' Hc'), elem_of_union. left.
           by apply elem_of_singleton.
        -- intros c' [-> | Hc']%elem_of_cons; [done|].
           intros Hids. apply (Hfresh c' Hc'), elem_of_union. by right.
      * intros ((_ & Hwf) & (Hc & Hnd) & Hfresh). split_and!; [done..|].
        intros c' Hc' [Heq%elem_of_singleton | Hids]%elem_of_union.
        -- apply Hc. rewrite <-Heq. apply list_elem_of_fmap. eauto.
        -- apply (Hfresh c'); [apply elem_of_cons; by right | done].
Qed.

Lemma validateScoreboard_nonempty scoreboard :
  capabilities scoreboard ≠ [] →
  validateScoreboard scoreboard
  = validateScoreboard_loop ∅ (capabilities scoreboard).
Proof.
  unfold validateScoreboard. intros Hne.
  rewrite bool_decide_false; [done|]. by destruct (capabilities scoreboard).
Qed.

(** C3, counterexample: in [invalidStateFirst] one capability has an empty id
    and another one an invalid state, and the error is the one of rule 4. *)
Lemma validateScoreboard_invalid_state_first :
  (∃ c c', c ∈ capabilities invalidStateFirst
           ∧ c' ∈ capabilities invalidStateFirst
           ∧ c ≠ c'
           ∧ (id c = "" ∨ description c = "")
           ∧ state c' ∉ allowedStates)
  ∧ validateScoreboard invalidStateFirst
    = Throw (invalidStateError (mkCapability "a" "first" "bogus" None))
  ∧ validateScoreboard invalidStateFirst ≠ Throw emptyFieldError.
Proof.
  split; [|split; [reflexivity | discriminate]].
  exists (mkCapability "" "second" "scaffold" None),
         (mkCapability "a" "first" "bogus" None).
  unfold invalidStateFirst, allowedStates. simpl.
  split_and!; [set_solver..|discriminate|by left|].
  rewrite !elem_of_cons, elem_of_nil. intros [?|[?|[?|[]]]]; discriminate.
Qed.

(** C3, amended: rule 1 is checked first; then the capabilities are visited in
    sequence order and, at each one, rule 2, rule 3 (against the ids of the
    capabilities before it) and rule 4 are checked in this order; the error
    is that of the first check that fails. So at the first capability that
    breaks a rule, after a prefix of well-formed capabilities with distinct
    ids: an empty id or description gives the rule-2 error; else an id of the
    prefix gives the rule-3 error; else a state outside the allowed ones
    gives the rule-4 error, whatever the capabilities after it are. *)
Theorem validateScoreboard_order scoreboard :
  (capabilities scoreboard = [] →
     validateScoreboard scoreboard = Throw noCapabilityError)
  ∧ ∀ (pre post : list Capability) capability,
      capabilities scoreboard = pre ++ capability :: post →
      Forall wellFormed pre →
      NoDup (id <$> pre) →
      (id capability = "" ∨ description capability = "" →
         validateScoreboard scoreboard = Throw emptyFieldError)
      ∧ (id capability ≠ "" → description capability ≠ "" →
         id capability ∈ id <$> pre →
         validateScoreboard scoreboard = Throw (duplicateIdError capability))
      ∧ (id capability ≠ "" → description capability ≠ "" →
         id capability ∉ id <$> pre →
         state capability ∉ allowedStates →
         validateScoreboard scoreboard = Throw (invalidStateError capability)).
Proof.
  split.
  { unfold validateScoreboard. by intros ->. }
  intros pre post c Hcaps Hwf Hnd.
  rewrite validateScoreboard_nonempty, Hcaps by (rewrite Hcaps; by destruct pre).
  rewrite validateScoreboard_loop_prefix by (done || set_solver).
  rewrite validateScoreboard_loop_cons, union_empty_r_L.
  split_and!.
  - intros Hempty. by rewrite bool_decide_true.
  - intros Hid Hd Hdup.
    rewrite bool_decide_false by tauto.
    by rewrite bool_decide_true by set_solver.
  - intros Hid Hd Hfresh Hst.
    rewrite bool_decide_false by tauto.
    rewrite bool_decide_false by set_solver.
    by rewrite bool_decide_true.
Qed.

Lemma validateScoreboard_order_witness :
  capabilities invalidStateFirst
  = [] ++ mkCapability "a" "first" "bogus" None
       :: [mkCapability "" "second" "scaffold" None]
  ∧ validateScoreboard invalidStateFirst
    = Throw (invalidStateError (mkCapability "a" "first" "bogus" None)).
Proof.
  split; [reflexivity|].
  refine (proj2 (proj2 (proj2 (validateScoreboard_order invalidStateFirst)
            [] [mkCapability "" "second" "scaffold" None]
            (mkCapability "a" "first" "bogus" None)
            eq_refl (Forall_nil_2 _) (NoDup_nil_2))) _ _ _ _);
    simpl; [discriminate..| |].
  - by intros ?%elem_of_nil.
  - unfold allowedStates. rewrite !elem_of_cons, elem_of_nil.
    intros [?|[?|[?|[]]]]; discriminate.
Defined.

(** C4: [validateScoreboard] throws for every scoreboard that has no
    capability, or two capabilities with one id, or a state outside
    spec-only, scaffold and operational, or an empty id or description; it
    returns normally for every scoreboard with one capability or more whose
    ids are not empty and distinct, whose descriptions are not empty and
    whose states are among the three. *)
Theorem validateScoreboard_spec scoreboard :
  ((∃ message, validateScoreboard scoreboard = Throw message) ↔
     capabilities scoreboard = []
     ∨ ¬ NoDup (id <$> capabilities scoreboard)
     ∨ Exists (λ c, state c ∉ allowedStates) (capabilities scoreboard)
     ∨ Exists (λ c, id c = "" ∨ description c = "") (capabilities scoreboard))
  ∧ (validateScoreboard scoreboard = Normal ↔
       capabilities scoreboard ≠ []
       ∧ NoDup (id <$> capabilities scoreboard)
       ∧ Forall (λ c, id c ≠ "" ∧ description c ≠ ""
                      ∧ state c ∈ allowedStates) (capabilities scoreboard)).
Proof.
  assert (validateScoreboard scoreboard = Normal ↔
            capabilities scoreboard ≠ []
            ∧ NoDup (id <$> capabilities scoreboard)
            ∧ Forall wellFormed (capabilities scoreboard)) as Hnormal.
  { destruct (decide (capabilities scoreboard = [])) as [Hnil|Hne].
    - unfold validateScoreboard. rewrite Hnil. simpl. split; [done | tauto].
    - rewrite validateScoreboard_nonempty, validateScoreboard_loop_Normal by done.
      split; [tauto|]. intros (_ & ? & ?). split_and!; [done..|set_solver]. }
  split; [|exact Hnormal].
  assert ((∃ message, validateScoreboard scoreboard = Throw message) ↔
            ¬ validateScoreboard scoreboard = Normal) as ->.
  { destruct (validateScoreboard scoreboard); split; eauto; try done.
    intros [? ?]. done. }
  rewrite Hnormal. split.
  - intros Hnot.
    destruct (decide (capabilities scoreboard = [])) as [?|Hne]; [by left|].
    destruct (decide (NoDup (id <$> capabilities scoreboard))) as [Hnd|?];
      [|by right; left].
    right; right.
    assert (¬ Forall wellFormed (capabilities scoreboard)) as Hex by tauto.
    apply not_Forall_Exists in Hex; [|apply _].
    clear -Hex. induction Hex as [c caps Hc | c caps _ [IH | IH]].
    + unfold wellFormed in Hc.
      destruct (decide (id c = "")); [right; constructor; by left|].
      destruct (decide (description c = "")); [right; constructor; by right|].
      left. apply Exists_cons_hd. intros Hst. by apply Hc.
    + left. by apply Exists_cons_tl.
    + right. by apply Exists_cons_tl.
  - intros [Hnil | [Hdup | [Hex | Hex]]] (Hne & Hnd & Hwf); [done..| |];
      apply Exists_exists in Hex as (c & Hc & Hbad);
      rewrite Forall_forall in Hwf; destruct (Hwf c Hc) as (? & ? & ?); tauto.
Qed.

End validate.

(** ** getScoreCounts, renderSummaryMarkdown *)

Section counts.
Implicit Types (scoreboard : Scoreboard) (caps : list Capability).
Implicit Types (counts : gmap string number).

Lemma increment_lookup counts key k n :
  counts !! k = Some (Num n) →
  increment counts key !! k
  = Some (Num (n + if decide (key = k) then 1 else 0)).
Proof.
  intros Hk. unfold increment. case_decide as Hkey.
  - subst. by rewrite lookup_insert_eq, Hk.
  - rewrite lookup_insert_ne, Hk by done. do 2 f_equal. lia.
Qed.

(** A counter that holds a number ends up increased by the number of
    capabilities in its state. *)
Lemma count_loop_lookup counts caps k n :
  counts !! k = Some (Num n) →
  foldl (λ counts capability, increment counts (state capability)) counts caps !! k
  = Some (Num (n + inState k caps)).
Proof.
  revert counts n. induction caps as [|c caps IH]; intros counts n Hk; simpl.
  - rewrite Hk. unfold inState. simpl. do 2 f_equal. lia.
  - erewrite IH by (by apply increment_lookup).
    unfold inState. rewrite filter_cons. do 2 f_equal.
    case_decide; cbn [length]; lia.
Qed.

Lemma getScoreCounts_lookup scoreboard k :
  k ∈ allowedStates →
  getScoreCounts scoreboard !! k
  = Some (Num (inState k (capabilities scoreboard))).
Proof.
  intros Hk. unfold getScoreCounts.
  erewrite (count_loop_lookup _ _ k 0); [done|].
  unfold allowedStates in Hk. rewrite !elem_of_cons, elem_of_nil in Hk.
  destruct Hk as [->|[->|[->|[]]]]; by vm_compute.
Qed.

(** When every state is allowed, the three classes cover the capabilities. *)
Lemma inState_total caps :
  Forall (λ c, state c ∈ allowedStates) caps →
  inState "spec-only" caps + inState "scaffold" caps + inState "operational" caps
  = length caps.
Proof.
  unfold inState. induction 1 as [|c caps Hc _ IH]; [done|].
  rewrite !filter_cons. unfold allowedStates in Hc.
  rewrite !elem_of_cons, elem_of_nil in Hc.
  destruct Hc as [Hc|[Hc|[Hc|[]]]]; rewrite Hc;
    repeat case_decide; try congruence; cbn [length]; lia.
Qed.

(** C10: when every capability is in one of the three states, the counts of
    [getScoreCounts] for spec-only, scaffold and operational are numbers whose
    sum is the number of capabilities, and [renderSummaryMarkdown] prints that
    sum both as the number of tracked capabilities and as the denominator of
    the ratio of operational ones. *)
Theorem getScoreCounts_total scoreboard :
  Forall (λ c, state c ∈ allowedStates) (capabilities scoreboard) →
  ∃ specOnly scaffold operational : nat,
    getScoreCounts scoreboard !! "spec-only" = Some (Num specOnly)
    ∧ getScoreCounts scoreboard !! "scaffold" = Some (Num scaffold)
    ∧ getScoreCounts scoreboard !! "operational" = Some (Num operational)
    ∧ specOnly + scaffold + operational = length (capabilities scoreboard)
    ∧ renderSummaryMarkdown scoreboard
      = JS.join (String JS.LF "")
          [ "- Capabilities tracked: **"
              +:+ pretty (specOnly + scaffold + operational) +:+ "**";
            "- Operational: **" +:+ pretty operational +:+ "**";
            "- Scaffold: **" +:+ pretty scaffold +:+ "**";
            "- Spec-only: **" +:+ pretty specOnly +:+ "**";
            "- Implementation ratio (operational/total): **"
              +:+ (pretty operational +:+ "/"
                     +:+ pretty (specOnly + scaffold + operational))
              +:+ "**" ].
Proof.
  intros Hstates.
  exists (inState "spec-only" (capabilities scoreboard)),
         (inState "scaffold" (capabilities scoreboard)),
         (inState "operational" (capabilities scoreboard)).
  assert (∀ k, k ∈ allowedStates →
            getScoreCounts scoreboard !! k
            = Some (Num (inState k (capabilities scoreboard)))) as Hlookup
    by (intros; by apply getScoreCounts_lookup).
  assert ("spec-only" ∈ allowedStates ∧ "scaffold" ∈ allowedStates
          ∧ "operational" ∈ allowedStates) as (H1 & H2 & H3)
    by (unfold allowedStates; set_solver).
  split_and!; [by apply Hlookup..|by apply inState_total|].
  unfold renderSummaryMarkdown.
  rewrite !Hlookup by done. rewrite inState_total by done. done.
Qed.

Lemma getScoreCounts_total_witness :
  Forall (λ c, state c ∈ allowedStates) (capabilities sampleScoreboard)
  ∧ ∃ specOnly scaffold operational : nat,
      getScoreCounts sampleScoreboard !! "spec-only" = Some (Num specOnly)
      ∧ getScoreCounts sampleScoreboard !! "scaffold" = Some (Num scaffold)
      ∧ getScoreCounts sampleScoreboard !! "operational" = Some (Num operational)
      ∧ specOnly + scaffold + operational = length (capabilities sampleScoreboard)
      ∧ renderSummaryMarkdown sampleScoreboard
        = JS.join (String JS.LF "")
            [ "- Capabilities tracked: **"
                +:+ pretty (specOnly + scaffold + operational) +:+ "**";
              "- Operational: **" +:+ pretty operational +:+ "**";
              "- Scaffold: **" +:+ pretty scaffold +:+ "**";
              "- Spec-only: **" +:+ pretty specOnly +:+ "**";
              "- Implementation ratio (operational/total): **"
                +:+ (pretty operational +:+ "/"
                       +:+ pretty (specOnly + scaffold + operational))
                +:+ "**" ].
Proof.
  assert (Forall (λ c, state c ∈ allowedStates) (capabilities sampleScoreboard))
    as Hstates.
  { unfold sampleScoreboard, allowedStates. simpl.
    repeat constructor; set_solver. }
  split; [exact Hstates|].
  exact (getScoreCounts_total sampleScoreboard Hstates).
Defined.

End counts.

(** ** The script on small inputs *)

Example parse_added_line :
  parseDiffEntries ("A" +:+ String JS.TAB "foo/bar.md")
  = [mkDiffEntry "A" "foo/bar.md"].
Proof. reflexivity. Qed.

Example parse_trailing_blank_line :
  parseDiffEntries ("M" +:+ String JS.TAB "src/a.ts" +:+ String JS.LF "")
  = [mkDiffEntry "M" "src/a.ts"].
Proof. reflexivity. Qed.

Example added_twice_listed_once :
  getAddedSpecArtifacts
    [ mkDiffEntry "A" ".GITHUB-MODE/docs/planning/b.md";
      mkDiffEntry "A" ".GITHUB-MODE/docs/planning/a.md";
      mkDiffEntry "M" ".GITHUB-MODE/docs/planning/c.md";
      mkDiffEntry "A" ".GITHUB-MODE/docs/planning/b.md" ]
  = [".GITHUB-MODE/docs/planning/a.md"; ".GITHUB-MODE/docs/planning/b.md"].
Proof. by vm_compute. Qed.

Example guard_passes_with_modified_scoreboard :
  enforceSpecToImplementationTracking
    [ mkDiffEntry "A" ".GITHUB-MODE/docs/planning/x.md";
      mkDiffEntry "M" SCOREBOARD_PATH ]
  = Normal.
Proof. by vm_compute. Qed.

Example guard_fails_with_deleted_scoreboard :
  enforceSpecToImplementationTracking
    [ mkDiffEntry "A" ".GITHUB-MODE/docs/planning/x.md";
      mkDiffEntry "D" SCOREBOARD_PATH ]
  = Throw (JS.join (String JS.LF "")
             (trackingErrorLines [".GITHUB-MODE/docs/planning/x.md"])).
Proof. by vm_compute. Qed.

Example summary_of_sample :
  renderSummaryMarkdown sampleScoreboard
  = JS.join (String JS.LF "")
      [ "- Capabilities tracked: **3**";
        "- Operational: **1**";
        "- Scaffold: **2**";
        "- Spec-only: **0**";
        "- Implementation ratio (operational/total): **1/3**" ].
Proof. by vm_compute. Qed.

(** * Further properties of the script *)

(** ** Strings *)

Section more_strings.
Implicit Types (s t : string) (c : ascii).

Lemma split_append sep s t :
  JS.split sep (s +:+ String sep t) = JS.split sep s ++ JS.split sep t.
Proof.
  induction s as [|c s IH]; simpl.
  - by rewrite decide_True.
  - case_decide; [by rewrite IH|].
    rewrite IH. destruct (split_cons sep s) as (f & fs & ->). done.
Qed.

Lemma split_fields_free c sep s :
  JS.free c s = true → Forall (λ field, JS.free c field = true) (JS.split sep s).
Proof.
  induction s as [|d s IH]; simpl; [by repeat constructor|].
  rewrite andb_true_iff, bool_decide_eq_true. intros [Hd Hs].
  specialize (IH Hs). case_decide.
  - by constructor.
  - destruct (split_cons sep s) as (f & fs & Heq). rewrite Heq in *.
    inversion IH; subst. constructor; [|done].
    simpl. by rewrite bool_decide_true, andb_true_l.
Qed.

Lemma split_fields_free_sep sep s :
  Forall (λ field, JS.free sep field = true) (JS.split sep s).
Proof.
  induction s as [|d s IH]; simpl; [by repeat constructor|].
  case_decide.
  - by constructor.
  - destruct (split_cons sep s) as (f & fs & Heq). rewrite Heq in *.
    inversion IH; subst. constructor; [|done].
    simpl. by rewrite bool_decide_true, andb_true_l.
Qed.

Lemma trimStart_free c s : JS.free c s = true → JS.free c (JS.trimStart s) = true.
Proof.
  induction s as [|d s IH]; simpl; [done|].
  rewrite andb_true_iff. intros [Hd Hs].
  destruct (JS.isWhiteSpace d); [by apply IH|]. simpl. by rewrite Hd, Hs.
Qed.

Lemma trimEnd_free c s : JS.free c s = true → JS.free c (JS.trimEnd s) = true.
Proof.
  induction s as [|d s IH]; simpl; [done|].
  rewrite andb_true_iff. intros [Hd Hs].
  destruct (JS.isWhiteSpace d && bool_decide (JS.trimEnd s = "")); [done|].
  simpl. by rewrite Hd, IH.
Qed.

Lemma trim_free c s : JS.free c s = true → JS.free c (JS.trim s) = true.
Proof. intros. by apply trimEnd_free, trimStart_free. Qed.

Lemma trimStart_headed s : headed (JS.trimStart s).
Proof.
  induction s as [|c s IH]; simpl; [done|].
  by destruct (JS.isWhiteSpace c) eqn:Hc.
Qed.

Lemma trimStart_id s : headed s → JS.trimStart s = s.
Proof. destruct s as [|c s]; simpl; [done|]. by intros ->. Qed.

Lemma trimEnd_headed s : headed s → headed (JS.trimEnd s).
Proof. destruct s as [|c s]; simpl; [done|]. intros Hc. by rewrite Hc. Qed.

Lemma trimEnd_idemp s : JS.trimEnd (JS.trimEnd s) = JS.trimEnd s.
Proof.
  induction s as [|c s IH]; simpl; [done|].
  destruct (JS.isWhiteSpace c && bool_decide (JS.trimEnd s = "")) eqn:Hc; [done|].
  simpl. by rewrite IH, Hc.
Qed.

Lemma trim_idemp s : JS.trim (JS.trim s) = JS.trim s.
Proof.
  unfold JS.trim.
  rewrite (trimStart_id (JS.trimEnd _)) by apply trimEnd_headed, trimStart_headed.
  apply trimEnd_idemp.
Qed.

End more_strings.

(** ** parseDiffEntries *)

Section more_parse.
Implicit Types (entries : list DiffEntry) (line text : string).

(** X1: the entries of two texts joined by a newline are the entries of the
    first text followed by those of the second one: the parser works line by
    line and keeps the order of the lines. *)
Theorem parseDiffEntries_append (text1 text2 : string) :
  parseDiffEntries (text1 +:+ String JS.LF text2)
  = parseDiffEntries text1 ++ parseDiffEntries text2.
Proof. by rewrite !parseDiffEntries_lines, split_append, bind_app. Qed.

(** X2: a line of two fields or more whose trimmed status starts neither
    with R nor with C gives exactly one entry, made of the trimmed status and
    the trimmed second field; the fields after the second one are ignored. *)
Theorem parseDiffEntries_ordinary_line (st p : string) (rest : list string) :
  Forall (λ field, JS.free JS.TAB field = true ∧ JS.free JS.LF field = true)
         (st :: p :: rest) →
  JS.startsWith (JS.trim st) "R" || JS.startsWith (JS.trim st) "C" = false →
  parseDiffEntries (JS.join (String JS.TAB "") (st :: p :: rest))
  = [mkDiffEntry (JS.trim st) (JS.trim p)].
Proof.
  intros Hfree Hst. rewrite parseDiffEntries_one_line.
  - unfold parseDiffEntries_line. rewrite split_join, Hst; [done|].
    eapply Forall_impl; [exact Hfree|]. by intros ? [? _].
  - apply free_join; [done|].
    eapply Forall_impl; [exact Hfree|]. by intros ? [_ ?].
Qed.

Lemma parseDiffEntries_ordinary_line_witness :
  Forall (λ field, JS.free JS.TAB field = true ∧ JS.free JS.LF field = true)
         ["M"; " src/a b.ts "; "ignored"]
  ∧ JS.startsWith (JS.trim "M") "R" || JS.startsWith (JS.trim "M") "C" = false
  ∧ parseDiffEntries (JS.join (String JS.TAB "") ["M"; " src/a b.ts "; "ignored"])
    = [mkDiffEntry (JS.trim "M") (JS.trim " src/a b.ts ")].
Proof.
  assert (Forall (λ field, JS.free JS.TAB field = true ∧ JS.free JS.LF field = true)
                 ["M"; " src/a b.ts "; "ignored"]) as Hfree.
  { repeat constructor. }
  split; [exact Hfree|]. split; [reflexivity|].
  exact (parseDiffEntries_ordinary_line "M" " src/a b.ts " ["ignored"] Hfree eq_refl).
Defined.

Lemma cleanField_trim (field : string) :
  JS.free JS.TAB field = true → JS.free JS.LF field = true →
  cleanField (JS.trim field).
Proof.
  intros Htab Hlf. unfold cleanField.
  split_and!; [apply trim_idemp | by apply trim_free..].
Qed.

Lemma parseDiffEntries_line_clean line :
  JS.free JS.LF line = true →
  Forall (λ e, cleanField (status e) ∧ cleanField (path e))
         (parseDiffEntries_line [] line).
Proof.
  intros Hlf. unfold parseDiffEntries_line, push.
  pose proof (split_fields_free_sep JS.TAB line) as Htab.
  pose proof (split_fields_free JS.LF JS.TAB line Hlf) as Hlfs.
  destruct (JS.split JS.TAB line) as [|p0 [|p1 parts]]; [constructor..|].
  inversion Htab as [|?? Ht0 Htab1]; subst. inversion Htab1 as [|?? Ht1 Htab2]; subst.
  inversion Hlfs as [|?? Hl0 Hlfs1]; subst. inversion Hlfs1 as [|?? Hl1 Hlfs2]; subst.
  assert (cleanField (JS.trim p0) ∧ cleanField (JS.trim p1)) as Hfirst
    by (split; by apply cleanField_trim).
  destruct (JS.startsWith _ "R" || JS.startsWith _ "C"); simpl;
    [|by rewrite Forall_singleton].
  destruct parts as [|p2 parts]; [by rewrite Forall_singleton|].
  inversion Htab2; subst. inversion Hlfs2; subst.
  assert (cleanField (JS.trim p2)) by (by apply cleanField_trim).
  destruct (bool_decide (p2 ≠ "")); simpl;
    rewrite ?Forall_cons, ?Forall_nil; simpl; tauto.
Qed.

Lemma parseDiffEntries_clean text :
  Forall (λ e, cleanField (status e) ∧ cleanField (path e))
         (parseDiffEntries text).
Proof.
  rewrite parseDiffEntries_lines.
  pose proof (split_fields_free_sep JS.LF text) as Hlines.
  induction Hlines as [|line lines Hline _ IH]; [constructor|].
  rewrite bind_cons. apply Forall_app. split; [|done].
  by apply parseDiffEntries_line_clean.
Qed.

(** X3: in every entry of the result, the status and the path are trimmed
    (trimming them again changes nothing) and hold neither a tab nor a
    newline. *)
Theorem parseDiffEntries_entries_clean text :
  Forall (λ e, cleanField (status e) ∧ cleanField (path e))
         (parseDiffEntries text).
Proof. apply parseDiffEntries_clean. Qed.

Lemma parseDiffEntries_line_length line :
  length (parseDiffEntries_line [] line) ≤ 2.
Proof.
  unfold parseDiffEntries_line, push. repeat case_match; simpl; lia.
Qed.

(** X4: a line gives two entries at most, however many fields it has: the
    result is never longer than twice the number of lines of the text. *)
Theorem parseDiffEntries_length text :
  length (parseDiffEntries text) ≤ 2 * length (JS.split JS.LF text).
Proof.
  rewrite parseDiffEntries_lines.
  induction (JS.split JS.LF text) as [|line lines IH]; [done|].
  rewrite bind_cons, length_app. pose proof (parseDiffEntries_line_length line).
  simpl. lia.
Qed.

End more_parse.

(** ** getAddedSpecArtifacts and the guard *)

Section more_added.
Implicit Types (entries : list DiffEntry).

Lemma getAddedSpecArtifacts_elem_of entries p :
  p ∈ getAddedSpecArtifacts entries ↔ addedSpecPath entries p.
Proof.
  unfold getAddedSpecArtifacts, addedSpecPath.
  rewrite toSorted_Permutation, additions_elem_of. split; [|by right].
  intros [[]%elem_of_nil | ?]. done.
Qed.

Lemma getAddedSpecArtifacts_same_paths entries entries' :
  (∀ p, addedSpecPath entries p ↔ addedSpecPath entries' p) →
  getAddedSpecArtifacts entries = getAddedSpecArtifacts entries'.
Proof.
  intros Hsame. unfold getAddedSpecArtifacts. apply toSorted_unique.
  apply NoDup_Permutation; [by apply additions_NoDup, NoDup_nil_2..|].
  intros p. rewrite !additions_elem_of. unfold addedSpecPath in Hsame.
  rewrite (Hsame p). done.
Qed.

Lemma addedSpecPath_Permutation entries entries' p :
  entries ≡ₚ entries' → addedSpecPath entries p ↔ addedSpecPath entries' p.
Proof. intros Hperm. unfold addedSpecPath. by setoid_rewrite Hperm. Qed.

Lemma hasScoreboardUpdate_Permutation entries entries' :
  entries ≡ₚ entries' → hasScoreboardUpdate entries = hasScoreboardUpdate entries'.
Proof.
  intros Hperm. apply eq_true_iff_eq. rewrite !hasScoreboardUpdate_true.
  by setoid_rewrite Hperm.
Qed.

(** X5: the result depends only on the set of paths that entries of status A
    give to spec artifacts: two lists of entries with the same such paths
    have the same result, whatever their other entries, their repetitions and
    their order. *)
Theorem getAddedSpecArtifacts_ext entries entries' :
  (∀ p, addedSpecPath entries p ↔ addedSpecPath entries' p) →
  getAddedSpecArtifacts entries = getAddedSpecArtifacts entries'.
Proof. apply getAddedSpecArtifacts_same_paths. Qed.

Lemma getAddedSpecArtifacts_ext_witness :
  (∀ p, addedSpecPath
          [ mkDiffEntry "A" ".GITHUB-MODE/docs/planning/x.md";
            mkDiffEntry "M" "src/a.ts";
            mkDiffEntry "A" ".GITHUB-MODE/docs/planning/x.md" ] p
        ↔ addedSpecPath [mkDiffEntry "A" ".GITHUB-MODE/docs/planning/x.md"] p)
  ∧ getAddedSpecArtifacts
      [ mkDiffEntry "A" ".GITHUB-MODE/docs/planning/x.md";
        mkDiffEntry "M" "src/a.ts";
        mkDiffEntry "A" ".GITHUB-MODE/docs/planning/x.md" ]
    = getAddedSpecArtifacts [mkDiffEntry "A" ".GITHUB-MODE/docs/planning/x.md"].
Proof.
  assert (∀ p, addedSpecPath
                 [ mkDiffEntry "A" ".GITHUB-MODE/docs/planning/x.md";
                   mkDiffEntry "M" "src/a.ts";
                   mkDiffEntry "A" ".GITHUB-MODE/docs/planning/x.md" ] p
               ↔ addedSpecPath
                   [mkDiffEntry "A" ".GITHUB-MODE/docs/planning/x.md"] p) as Hsame.
  { intros p. unfold addedSpecPath. split.
    - intros (e & Hin & Hst & Hspec & Hp).
      exists (mkDiffEntry "A" ".GITHUB-MODE/docs/planning/x.md").
      rewrite list_elem_of_singleton. split; [done|].
      rewrite !elem_of_cons, elem_of_nil in Hin.
      destruct Hin as [->|[->|[->|[]]]]; [done|discriminate|done].
    - intros (e & ->%list_elem_of_singleton & Hrest).
      exists (mkDiffEntry "A" ".GITHUB-MODE/docs/planning/x.md").
      split; [apply elem_of_cons; by left | done]. }
  split; [exact Hsame|].
  exact (getAddedSpecArtifacts_ext _ _ Hsame).
Defined.

(** X6: the guard does not depend on the order of the entries: a permutation
    of the entries ends the same way, with the same message when it throws. *)
Theorem enforceSpecToImplementationTracking_Permutation entries entries' :
  entries ≡ₚ entries' →
  enforceSpecToImplementationTracking entries
  = enforceSpecToImplementationTracking entries'.
Proof.
  intros Hperm. rewrite !enforce_cases.
  rewrite (getAddedSpecArtifacts_same_paths entries entries')
    by (intros p; by apply addedSpecPath_Permutation).
  by rewrite (hasScoreboardUpdate_Permutation entries entries').
Qed.

Lemma enforceSpecToImplementationTracking_Permutation_witness :
  [ mkDiffEntry "A" ".GITHUB-MODE/docs/planning/b.md";
    mkDiffEntry "D" SCOREBOARD_PATH;
    mkDiffEntry "A" ".GITHUB-MODE/docs/planning/a.md" ]
  ≡ₚ [ mkDiffEntry "A" ".GITHUB-MODE/docs/planning/a.md";
       mkDiffEntry "A" ".GITHUB-MODE/docs/planning/b.md";
       mkDiffEntry "D" SCOREBOARD_PATH ]
  ∧ enforceSpecToImplementationTracking
      [ mkDiffEntry "A" ".GITHUB-MODE/docs/planning/b.md";
        mkDiffEntry "D" SCOREBOARD_PATH;
        mkDiffEntry "A" ".GITHUB-MODE/docs/planning/a.md" ]
    = enforceSpecToImplementationTracking
        [ mkDiffEntry "A" ".GITHUB-MODE/docs/planning/a.md";
          mkDiffEntry "A" ".GITHUB-MODE/docs/planning/b.md";
          mkDiffEntry "D" SCOREBOARD_PATH ].
Proof.
  assert ([ mkDiffEntry "A" ".GITHUB-MODE/docs/planning/b.md";
            mkDiffEntry "D" SCOREBOARD_PATH;
            mkDiffEntry "A" ".GITHUB-MODE/docs/planning/a.md" ]
          ≡ₚ [ mkDiffEntry "A" ".GITHUB-MODE/docs/planning/a.md";
               mkDiffEntry "A" ".GITHUB-MODE/docs/planning/b.md";
               mkDiffEntry "D" SCOREBOARD_PATH ]) as Hperm.
  { etrans; [apply perm_skip, perm_swap|]. apply perm_swap. }
  split; [exact Hperm|].
  exact (enforceSpecToImplementationTracking_Permutation _ _ Hperm).
Defined.

End more_added.

(** ** validateScoreboard *)

Section more_validate.
Implicit Types (scoreboard : Scoreboard) (capability : Capability).
Implicit Types (ids : gset string) (caps : list Capability).

Lemma validateScoreboard_Normal_iff scoreboard :
  validateScoreboard scoreboard = Normal ↔
    capabilities scoreboard ≠ []
    ∧ NoDup (id <$> capabilities scoreboard)
    ∧ Forall wellFormed (capabilities scoreboard).
Proof.
  destruct (decide (capabilities scoreboard = [])) as [Hnil|Hne].
  - unfold validateScoreboard. rewrite Hnil. simpl. split; [done | tauto].
  - rewrite validateScoreboard_nonempty, validateScoreboard_loop_Normal by done.
    split; [tauto|]. intros (_ & ? & ?). split_and!; [done..|].
    by intros ? _ ?%elem_of_empty.
Qed.

(** X7: whether a scoreboard is accepted does not depend on the order of its
    capabilities; only the error reported for a rejected one does. *)
Theorem validateScoreboard_Permutation scoreboard scoreboard' :
  capabilities scoreboard ≡ₚ capabilities scoreboard' →
  validateScoreboard scoreboard = Normal ↔ validateScoreboard scoreboard' = Normal.
Proof.
  intros Hperm. rewrite !validateScoreboard_Normal_iff.
  assert (capabilities scoreboard = [] ↔ capabilities scoreboard' = []) as Hnil.
  { split; intros Heq; rewrite Heq in Hperm.
    - by apply Permutation_nil_l in Hperm.
    - by apply Permutation_nil_r in Hperm. }
  assert (NoDup (id <$> capabilities scoreboard)
          ↔ NoDup (id <$> capabilities scoreboard')) as Hnd
    by (by rewrite Hperm).
  assert (Forall wellFormed (capabilities scoreboard)
          ↔ Forall wellFormed (capabilities scoreboard')) as Hwf
    by (by rewrite Hperm).
  tauto.
Qed.

Lemma validateScoreboard_Permutation_witness :
  capabilities repeatedId ≡ₚ capabilities repeatedIdReordered
  ∧ (validateScoreboard repeatedId = Normal
     ↔ validateScoreboard repeatedIdReordered = Normal)
  ∧ validateScoreboard repeatedId
    = Throw "Duplicate capability id found: parse"
  ∧ validateScoreboard repeatedIdReordered = Throw emptyFieldError.
Proof.
  assert (capabilities repeatedId ≡ₚ capabilities repeatedIdReordered) as Hperm.
  { unfold repeatedId, repeatedIdReordered. simpl.
    etrans; [apply perm_swap|]. etrans; [apply perm_skip, perm_swap|].
    apply perm_swap. }
  split; [exact Hperm|]. split; [|split; reflexivity].
  exact (validateScoreboard_Permutation repeatedId repeatedIdReordered Hperm).
Defined.

(** What a throwing loop reports: the capability at which it stops, after a
    prefix [pre], and the rule that capability breaks. *)
Lemma validateScoreboard_loop_Throw ids caps message :
  validateScoreboard_loop ids caps = Throw message →
  ∃ pre capability post,
    caps = pre ++ capability :: post
    ∧ ((message = emptyFieldError
        ∧ (id capability = "" ∨ description capability = ""))
       ∨ (message = duplicateIdError capability
          ∧ (id capability ∈ ids ∨ id capability ∈ id <$> pre))
       ∨ (message = invalidStateError capability
          ∧ state capability ∉ allowedStates)).
Proof.
  revert ids. induction caps as [|c caps IH]; intros ids; [done|].
  rewrite validateScoreboard_loop_cons.
  case_bool_decide as Hempty.
  { intros [= <-]. exists [], c, caps. split; [done|]. by left. }
  case_bool_decide as Hdup.
  { intros [= <-]. exists [], c, caps. split; [done|]. right; left. auto. }
  case_bool_decide as Hstate.
  { intros [= <-]. exists [], c, caps. split; [done|]. right; right. auto. }
  intros (pre & c' & post & -> & Hcase)%IH.
  exists (c :: pre), c', post. split; [done|].
  destruct Hcase as [?|[[-> Hin]|?]]; [by left| |by right; right].
  right; left. split; [done|]. rewrite fmap_cons, elem_of_cons.
  destruct Hin as [[->%elem_of_singleton | ?]%elem_of_union | ?]; auto.
Qed.

(** X8: the error of a rejected scoreboard tells the truth. The
    no-capability error is thrown only for an empty list; the empty-field
    error only when some capability has an empty id or description; the
    duplicate error names an id that two capabilities at different positions
    have; the invalid-state error names a capability whose state is none of
    the allowed ones. The four kinds of message differ from each other. *)
Theorem validateScoreboard_error_truthful scoreboard message :
  validateScoreboard scoreboard = Throw message →
  ((message = noCapabilityError ∧ capabilities scoreboard = [])
   ∨ (message = emptyFieldError
      ∧ (∃ c, c ∈ capabilities scoreboard ∧ (id c = "" ∨ description c = "")))
   ∨ (∃ i j c c', i < j
        ∧ capabilities scoreboard !! i = Some c'
        ∧ capabilities scoreboard !! j = Some c
        ∧ id c' = id c ∧ message = duplicateIdError c)
   ∨ (∃ c, c ∈ capabilities scoreboard ∧ (state c ∉ allowedStates)
           ∧ message = invalidStateError c))
  ∧ (∀ c c', noCapabilityError ≠ emptyFieldError
             ∧ noCapabilityError ≠ duplicateIdError c
             ∧ noCapabilityError ≠ invalidStateError c
             ∧ emptyFieldError ≠ duplicateIdError c
             ∧ emptyFieldError ≠ invalidStateError c
             ∧ duplicateIdError c ≠ invalidStateError c').
Proof.
  intros Hthrow. split; [|by intros c c'; split_and!].
  destruct (decide (capabilities scoreboard = [])) as [Hnil|Hne].
  { left. unfold validateScoreboard in Hthrow. rewrite Hnil in *.
    simpl in Hthrow. by injection Hthrow as <-. }
  rewrite validateScoreboard_nonempty in Hthrow by done.
  apply validateScoreboard_loop_Throw in Hthrow
    as (pre & c & post & Hcaps & [[-> Hc]|[[-> Hc]|[-> Hc]]]); right.
  - left. split; [done|]. exists c. split; [|done].
    rewrite Hcaps, elem_of_app, elem_of_cons. auto.
  - right; left. destruct Hc as [[]%elem_of_empty | Hc].
    apply list_elem_of_fmap in Hc as (c' & Hid & Hc').
    apply list_elem_of_lookup in Hc' as (i & Hi).
    exists i, (length pre), c, c'. split_and!; [| | |done..].
    + by apply lookup_lt_Some in Hi.
    + rewrite Hcaps. by apply lookup_app_l_Some.
    + rewrite Hcaps. by apply list_lookup_middle.
  - right; right. exists c. split_and!; [|done..].
    rewrite Hcaps, elem_of_app, elem_of_cons. auto.
Qed.

Lemma validateScoreboard_error_truthful_witness :
  validateScoreboard repeatedId = Throw "Duplicate capability id found: parse"
  ∧ ∃ i j c c', i < j
      ∧ capabilities repeatedId !! i = Some c'
      ∧ capabilities repeatedId !! j = Some c
      ∧ id c' = id c
      ∧ "Duplicate capability id found: parse" = duplicateIdError c.
Proof.
  assert (validateScoreboard repeatedId
          = Throw "Duplicate capability id found: parse") as Hthrow
    by reflexivity.
  split; [exact Hthrow|].
  destruct (validateScoreboard_error_truthful repeatedId _ Hthrow)
    as [[[Hm _]|[[Hm _]|[Hdup|(c & _ & _ & Hm)]]] _].
  - discriminate Hm.
  - discriminate Hm.
  - exact Hdup.
  - discriminate Hm.
Defined.

End more_validate.

(** ** getScoreCounts, renderSummaryMarkdown *)

Section more_counts.
Implicit Types (scoreboard : Scoreboard) (caps : list Capability).

Lemma inState_partition caps :
  inState "spec-only" caps + inState "scaffold" caps + inState "operational" caps
  + inNoAllowedState caps
  = length caps.
Proof.
  unfold inState, inNoAllowedState. induction caps as [|c caps IH]; [done|].
  rewrite !filter_cons.
  destruct (decide (state c ∈ allowedStates)) as [Hc|Hc].
  - rewrite (decide_False (P := state c ∉ allowedStates)) by tauto.
    unfold allowedStates in Hc. rewrite !elem_of_cons, elem_of_nil in Hc.
    destruct Hc as [Hc|[Hc|[Hc|[]]]]; rewrite Hc;
      repeat case_decide; try congruence; cbn [length]; lia.
  - rewrite (decide_True (P := state c ∉ allowedStates)) by done.
    unfold allowedStates in Hc. rewrite !elem_of_cons, elem_of_nil in Hc.
    repeat case_decide; try tauto; cbn [length]; lia.
Qed.

Lemma inState_Permutation key caps caps' :
  caps ≡ₚ caps' → inState key caps = inState key caps'.
Proof. intros Hperm. unfold inState. by rewrite Hperm. Qed.

(** X9: whatever the states of the capabilities are, each of the three
    counters ends as the number of capabilities in its state: a capability in
    another state changes none of them. The three counts and the number of
    capabilities in no allowed state add up to the number of capabilities. *)
Theorem getScoreCounts_any scoreboard :
  getScoreCounts scoreboard !! "spec-only"
  = Some (Num (inState "spec-only" (capabilities scoreboard)))
  ∧ getScoreCounts scoreboard !! "scaffold"
    = Some (Num (inState "scaffold" (capabilities scoreboard)))
  ∧ getScoreCounts scoreboard !! "operational"
    = Some (Num (inState "operational" (capabilities scoreboard)))
  ∧ inState "spec-only" (capabilities scoreboard)
    + inState "scaffold" (capabilities scoreboard)
    + inState "operational" (capabilities scoreboard)
    + inNoAllowedState (capabilities scoreboard)
    = length (capabilities scoreboard).
Proof.
  split_and!; [apply getScoreCounts_lookup; unfold allowedStates..|
               apply inState_partition].
  - apply elem_of_cons. by left.
  - apply elem_of_cons. right. apply elem_of_cons. by left.
  - do 2 (apply elem_of_cons; right). apply elem_of_cons. by left.
Qed.

(** X10: the summary does not depend on the order of the capabilities. *)
Theorem renderSummaryMarkdown_Permutation scoreboard scoreboard' :
  capabilities scoreboard ≡ₚ capabilities scoreboard' →
  renderSummaryMarkdown scoreboard = renderSummaryMarkdown scoreboard'.
Proof.
  intros Hperm. unfold renderSummaryMarkdown.
  assert (∀ k, k ∈ allowedStates →
            getScoreCounts scoreboard !! k = getScoreCounts scoreboard' !! k)
    as Hcounts.
  { intros k Hk. rewrite !getScoreCounts_lookup by done.
    by rewrite (inState_Permutation k _ _ Hperm). }
  rewrite !Hcounts, (Permutation_length Hperm); [done|unfold allowedStates..].
  - apply elem_of_cons. by left.
  - apply elem_of_cons. right. apply elem_of_cons. by left.
  - do 2 (apply elem_of_cons; right). apply elem_of_cons. by left.
Qed.

Lemma renderSummaryMarkdown_Permutation_witness :
  capabilities repeatedId ≡ₚ capabilities repeatedIdReordered
  ∧ renderSummaryMarkdown repeatedId = renderSummaryMarkdown repeatedIdReordered.
Proof.
  assert (capabilities repeatedId ≡ₚ capabilities repeatedIdReordered) as Hperm.
  { unfold repeatedId, repeatedIdReordered. simpl.
    etrans; [apply perm_swap|]. etrans; [apply perm_skip, perm_swap|].
    apply perm_swap. }
  split; [exact Hperm|].
  exact (renderSummaryMarkdown_Permutation repeatedId repeatedIdReordered Hperm).
Defined.

End more_counts.

(** ** determineBaseRef, getDiffEntries, main *)

Section more_main.
Implicit Types (git : Git) (files : string → loaded) (argv : list string).

Lemma enforce_nil : enforceSpecToImplementationTracking [] = Normal.
Proof. reflexivity. Qed.

Lemma getDiffEntries_unavailable git :
  diffNameStatus git (determineBaseRef git) = None → getDiffEntries git = [].
Proof. unfold getDiffEntries. by intros ->. Qed.

(** X11: [main] returns (the script exits with status 0) exactly when the
    scoreboard file loads, the scoreboard is valid, and either [--summary]
    is among the arguments or the guard accepts the entries of the diff. *)
Theorem main_returns_iff git files argv :
  (∃ log, main git files argv = Returns log) ↔
    ∃ scoreboard,
      files SCOREBOARD_PATH = Parsed scoreboard
      ∧ validateScoreboard scoreboard = Normal
      ∧ ("--summary" ∈ argv
         ∨ enforceSpecToImplementationTracking (getDiffEntries git) = Normal).
Proof.
  unfold main, loadScoreboard.
  destruct (files SCOREBOARD_PATH) as [sb|m].
  2:{ split; [by intros [? ?] | by intros (? & ? & _)]. }
  destruct (validateScoreboard sb) eqn:Hvalid.
  2:{ split; [by intros [? ?] | intros (? & [= <-] & ? & _); congruence]. }
  case_bool_decide as Hsummary.
  { split; [intros _; exists sb; auto | eauto]. }
  destruct (enforceSpecToImplementationTracking (getDiffEntries git)) eqn:Hguard.
  - split; [intros _; exists sb; auto | eauto].
  - split; [by intros [? ?] | intros (? & _ & _ & [? | ?]); done].
Qed.



(** X13: when the diff command fails for the chosen base ref, there are no
    entries and the guard cannot fail: [main] returns exactly when the
    scoreboard file loads and the scoreboard is valid. *)
Theorem main_without_diff git files argv :
  diffNameStatus git (determineBaseRef git) = None →
  (∃ log, main git files argv = Returns log) ↔
    ∃ scoreboard,
      files SCOREBOARD_PATH = Parsed scoreboard
      ∧ validateScoreboard scoreboard = Normal.
Proof.
  intros Hdiff. unfold main, loadScoreboard.
  rewrite (getDiffEntries_unavailable git Hdiff), enforce_nil.
  destruct (files SCOREBOARD_PATH) as [sb|m].
  2:{ split; [by intros [? ?] | by intros (? & ? & _)]. }
  destruct (validateScoreboard sb) eqn:Hvalid.
  2:{ split; [by intros [? ?] | intros (? & [= <-] & ?); congruence]. }
  split; [intros _; exists sb; auto|]. intros _. case_bool_decide; eauto.
Qed.

Lemma main_without_diff_witness :
  diffNameStatus gitWithoutHistory (determineBaseRef gitWithoutHistory) = None
  ∧ ((∃ log, main gitWithoutHistory sampleFiles ["node"; "check.ts"] = Returns log)
     ↔ ∃ scoreboard,
         sampleFiles SCOREBOARD_PATH = Parsed scoreboard
         ∧ validateScoreboard scoreboard = Normal).
Proof.
  split; [reflexivity|].
  exact (main_without_diff gitWithoutHistory sampleFiles ["node"; "check.ts"]
           eq_refl).
Defined.

End more_main.


(** ** signal-reaction: isAuthorizedAssociation *)

Section more_case.
Implicit Types (c t : ascii) (s : string).

Lemma allUnits_complete c : c ∈ Case.allUnits.
Proof.
  unfold Case.allUnits. apply list_elem_of_fmap. exists (nat_of_ascii c).
  split; [by rewrite ascii_nat_embedding|].
  apply elem_of_seq. pose proof (nat_ascii_bounded c). lia.
Qed.

Lemma unitAgree_all c t : Case.unitAgree c t = true.
Proof.
  assert (forallb (λ c, forallb (Case.unitAgree c) Case.allUnits) Case.allUnits
          = true) as Hall by (vm_compute; reflexivity).
  rewrite forallb_forall in Hall.
  specialize (Hall c (proj1 (list_elem_of_In _ _) (allUnits_complete c))).
  rewrite forallb_forall in Hall.
  exact (Hall t (proj1 (list_elem_of_In _ _) (allUnits_complete t))).
Qed.

Lemma upperUnit_capital c t :
  Case.capitalNotS t = true →
  Case.upperUnit c = Some (String t "") ↔ Case.asciiLowerUnit c = Case.asciiLowerUnit t.
Proof.
  intros Ht. pose proof (unitAgree_all c t) as Hagree.
  unfold Case.unitAgree in Hagree. rewrite Ht in Hagree. simpl in Hagree.
  apply Bool.eqb_prop in Hagree.
  rewrite <-(bool_decide_eq_true (Case.upperUnit c = _)), Hagree.
  apply bool_decide_eq_true.
Qed.

(** The upper case of a code unit is one code unit, or SS. *)
Lemma upperUnit_shape c upper :
  Case.upperUnit c = Some upper → (∃ d, upper = String d "") ∨ upper = "SS".
Proof.
  unfold Case.upperUnit. repeat case_bool_decide; intros [= <-]; eauto.
Qed.

Lemma toUpperCase_capitals s target :
  Case.allCapitalNotS target = true →
  Case.toUpperCase s = Some target ↔ Case.asciiLower s = Case.asciiLower target.
Proof.
  revert target. induction s as [|c s IH]; intros target Htarget.
  - simpl. destruct target; simpl; split; intros H; by try discriminate H.
  - simpl. destruct target as [|t target]; simpl in *.
    + split; [|done].
      destruct (Case.upperUnit c) as [upper|] eqn:Hc; [|done].
      destruct (Case.toUpperCase s); [|done].
      apply upperUnit_shape in Hc as [[d ->] | ->]; done.
    + apply andb_true_iff in Htarget as [Ht Htarget]. split.
      * destruct (Case.upperUnit c) as [upper|] eqn:Hc; [|done].
        destruct (Case.toUpperCase s) as [rest|] eqn:Hs; [|done].
        pose proof Hc as Hshape.
        apply upperUnit_shape in Hshape as [[d ->] | ->]; simpl.
        -- intros [= -> ->]. f_equal; [by apply upperUnit_capital|].
           by apply IH.
        -- intros [= <- _]. done.
      * intros [= Hunit Hrest]. apply upperUnit_capital in Hunit; [|done].
        apply IH in Hrest; [|done]. by rewrite Hunit, Hrest.
Qed.

End more_case.

Section more_signal.
Import SignalReaction.
Implicit Types (payload : Payload.t) (context : EventContext.t).

(** X14: an association is authorized exactly when it is OWNER, MEMBER or
    COLLABORATOR written in any mix of upper and lower case of the letters A
    to Z; no other code unit below 256 takes the place of a letter. *)
Theorem isAuthorizedAssociation_iff association :
  isAuthorizedAssociation association = true ↔
    Case.asciiLower association = "owner"
    ∨ Case.asciiLower association = "member"
    ∨ Case.asciiLower association = "collaborator".
Proof.
  unfold isAuthorizedAssociation, ALLOWED_ASSOCIATIONS.
  rewrite <-(toUpperCase_capitals association "OWNER") by reflexivity.
  rewrite <-(toUpperCase_capitals association "MEMBER") by reflexivity.
  rewrite <-(toUpperCase_capitals association "COLLABORATOR") by reflexivity.
  destruct (Case.toUpperCase association) as [upper|].
  - rewrite bool_decide_eq_true, !elem_of_union, !elem_of_singleton.
    split.
    + intros [[-> | ->] | ->]; auto.
    + intros [[= ->] | [[= ->] | [= ->]]]; auto.
  - split; [done|]. by intros [? | [? | ?]].
Qed.

(** X15: the author of an event is authorized only if the object the
    association is read from (the comment for a comment event, the issue
    otherwise) is there, has an association, and that association is an
    authorized one: a missing association reads as NONE and is refused. *)
Theorem parseEventContext_authorized eventName payload repo :
  isAuthorizedAssociation
    (EventContext.authorAssociation (parseEventContext eventName payload repo))
  = true ↔
    ∃ association,
      associationSource eventName payload = Some association
      ∧ isAuthorizedAssociation association = true.
Proof.
  unfold parseEventContext, associationSource.
  case_bool_decide; simpl.
  - destruct (Payload.comment payload ≫= CommentObject.author_association)
      as [a|]; simpl.
    + split; [eauto | by intros (? & [= <-] & ?)].
    + split; [done | by intros (? & ? & _)].
  - destruct (Payload.issue payload ≫= IssueObject.author_association)
      as [a|]; simpl.
    + split; [eauto | by intros (? & [= <-] & ?)].
    + split; [done | by intros (? & ? & _)].
Qed.

(** X16: for an event other than a comment event, and for a comment event
    whose payload has no comment id or the id 0, the reaction is added to
    the issue, numbered 0 when the payload has no issue number, whatever
    comment the payload carries. *)
Theorem buildAddReactionArgs_issue_endpoint eventName payload repo :
  eventName ≠ "issue_comment"
  ∨ truthyId (Payload.comment payload ≫= CommentObject.id) = false →
  buildAddReactionArgs (parseEventContext eventName payload repo)
  = [ "api";
      "repos/" +:+ showField (ownerAndRepo repo).1
        +:+ "/" +:+ showField (ownerAndRepo repo).2
        +:+ "/issues/"
        +:+ pretty (default 0%Z (Payload.issue payload ≫= IssueObject.number))
        +:+ "/reactions";
      "-f"; "content=eyes"; "--jq"; ".id" ].
Proof.
  intros Hissue. unfold buildAddReactionArgs, parseEventContext.
  case_bool_decide as Hev; simpl.
  - destruct Hissue as [? | Hid]; [done|]. simpl in Hid.
    by rewrite Hid, andb_false_r.
  - by rewrite bool_decide_false by done.
Qed.

Lemma buildAddReactionArgs_issue_endpoint_witness :
  ("issues" ≠ "issue_comment"
   ∨ truthyId (Payload.comment
                 (Payload.mk (Some (CommentObject.mk (Some 100%Z) None None))
                             (Some (IssueObject.mk (Some 7%Z) None None None)))
               ≫= CommentObject.id) = false)
  ∧ buildAddReactionArgs
      (parseEventContext "issues"
         (Payload.mk (Some (CommentObject.mk (Some 100%Z) None None))
                     (Some (IssueObject.mk (Some 7%Z) None None None)))
         "org/repo")
    = [ "api"; "repos/org/repo/issues/7/reactions";
        "-f"; "content=eyes"; "--jq"; ".id" ].
Proof.
  assert ("issues" ≠ "issue_comment"
          ∨ truthyId (Payload.comment
                 (Payload.mk (Some (CommentObject.mk (Some 100%Z) None None))
                             (Some (IssueObject.mk (Some 7%Z) None None None)))
               ≫= CommentObject.id) = false) as Hissue.
  { left. discriminate. }
  split; [exact Hissue|].
  exact (buildAddReactionArgs_issue_endpoint "issues"
           (Payload.mk (Some (CommentObject.mk (Some 100%Z) None None))
                       (Some (IssueObject.mk (Some 7%Z) None None None)))
           "org/repo" Hissue).
Defined.

(** X17: the reaction is removed where it was added. For every context and
    reaction id, the arguments built from the state of that context delete
    the reaction under the very path the reaction was posted to. *)
Theorem buildRemoveReactionArgs_matches_add context (reactionId : Z) :
  ∃ endpoint,
    buildAddReactionArgs context
    = ["api"; endpoint; "-f"; "content=eyes"; "--jq"; ".id"]
    ∧ buildRemoveReactionArgs (buildReactionState context (Some reactionId))
      = Some ["api"; "--method"; "DELETE";
              endpoint +:+ "/" +:+ pretty reactionId].
Proof.
  unfold buildAddReactionArgs, buildRemoveReactionArgs, buildReactionState,
    resolveReactionTarget. simpl.
  destruct (ownerAndRepo (EventContext.repo context)) as [owner repo].
  case_bool_decide as Hev; simpl.
  - destruct (truthyId (EventContext.commentId context)); simpl;
      eexists; (split; [reflexivity|]);
      by repeat (progress (rewrite ?append_assoc; simpl)).
  - eexists. split; [reflexivity|].
    by repeat (progress (rewrite ?append_assoc; simpl)).
Qed.

End more_signal.

(** ** signal-reaction: extractPrompt, getArgValue *)

Section more_prompt.
Import SignalReaction.
Implicit Types (payload : Payload.t) (argv : list string).

Lemma free_append_sep c s t : JS.free c (s +:+ String c t) = false.
Proof.
  rewrite free_app. simpl. rewrite bool_decide_false by auto.
  apply andb_false_r.
Qed.

(** Two strings cut at the first occurrence of [c] are equal part by part. *)
Lemma append_sep_inj c s t x y :
  JS.free c s = true → JS.free c t = true →
  s +:+ String c x = t +:+ String c y → s = t ∧ x = y.
Proof.
  revert t. induction s as [|a s IH]; intros [|b t]; simpl;
    rewrite ?andb_true_iff, ?bool_decide_eq_true.
  - intros _ _ [= ->]. done.
  - intros _ [Hb _] [= <- _]. done.
  - intros [Ha _] _ [= -> _]. done.
  - intros [_ Hs] [_ Ht] [= -> Heq].
    destruct (IH t Hs Ht Heq) as [-> ->]. done.
Qed.

Lemma extractPrompt_issue eventName payload :
  eventName ≠ "issue_comment" →
  extractPrompt eventName payload
  = if bool_decide (issueBody payload ≠ "")
    then issueTitle payload +:+ String JS.LF (String JS.LF (issueBody payload))
    else issueTitle payload.
Proof.
  intros Hev. unfold extractPrompt. by rewrite bool_decide_false by done.
Qed.

(** X18: for an event other than a comment event and issues whose titles
    have no newline, the prompt determines the title and the body: two
    payloads with the same prompt have the same title and the same body. *)
Theorem extractPrompt_injective eventName payload payload' :
  eventName ≠ "issue_comment" →
  JS.free JS.LF (issueTitle payload) = true →
  JS.free JS.LF (issueTitle payload') = true →
  extractPrompt eventName payload = extractPrompt eventName payload' →
  issueTitle payload = issueTitle payload'
  ∧ issueBody payload = issueBody payload'.
Proof.
  intros Hev Htitle Htitle'. rewrite !extractPrompt_issue by done.
  repeat case_bool_decide.
  - intros Heq. apply append_sep_inj in Heq as [-> Heq]; [|done..].
    by injection Heq as ->.
  - intros Heq. rewrite <-Heq, free_append_sep in Htitle'. done.
  - intros Heq. rewrite Heq, free_append_sep in Htitle. done.
  - intros ->. split; [done|].
    destruct (decide (issueBody payload = "")) as [->|?]; [|done].
    by destruct (decide (issueBody payload' = "")) as [->|?].
Qed.

Lemma extractPrompt_injective_witness :
  "issues" ≠ "issue_comment"
  ∧ JS.free JS.LF
      (issueTitle (Payload.mk None
         (Some (IssueObject.mk (Some 7%Z) (Some "Quick test") None None)))) = true
  ∧ JS.free JS.LF
      (issueTitle (Payload.mk None
         (Some (IssueObject.mk None (Some "Quick test") (Some "") None)))) = true
  ∧ extractPrompt "issues"
      (Payload.mk None
         (Some (IssueObject.mk (Some 7%Z) (Some "Quick test") None None)))
    = extractPrompt "issues"
        (Payload.mk None
           (Some (IssueObject.mk None (Some "Quick test") (Some "") None)))
  ∧ issueTitle (Payload.mk None
      (Some (IssueObject.mk (Some 7%Z) (Some "Quick test") None None)))
    = issueTitle (Payload.mk None
        (Some (IssueObject.mk None (Some "Quick test") (Some "") None)))
  ∧ issueBody (Payload.mk None
      (Some (IssueObject.mk (Some 7%Z) (Some "Quick test") None None)))
    = issueBody (Payload.mk None
        (Some (IssueObject.mk None (Some "Quick test") (Some "") None))).
Proof.
  assert ("issues" ≠ "issue_comment") as Hev by discriminate.
  split; [exact Hev|]. split; [reflexivity|]. split; [reflexivity|].
  split; [reflexivity|].
  exact (extractPrompt_injective "issues"
           (Payload.mk None
              (Some (IssueObject.mk (Some 7%Z) (Some "Quick test") None None)))
           (Payload.mk None
              (Some (IssueObject.mk None (Some "Quick test") (Some "") None)))
           Hev eq_refl eq_refl eq_refl).
Defined.

Lemma indexOf_Some argv flag i :
  indexOf argv flag = Some i ↔
    ∃ pre post, argv = pre ++ flag :: post ∧ (flag ∉ pre) ∧ i = length pre.
Proof.
  revert i. induction argv as [|arg argv IH]; intros i; simpl.
  - split; [done|]. intros ([|??] & ? & ? & _); done.
  - case_bool_decide as Harg.
    + subst. split.
      * intros [= <-]. exists [], argv. split_and!; [done| |done].
        by intros ?%elem_of_nil.
      * intros ([|a pre] & post & Heq & Hpre & ->); [done|].
        injection Heq as <- _. destruct Hpre. apply elem_of_cons. by left.
    + split.
      * destruct (indexOf argv flag) as [j|] eqn:Hj; [|done].
        intros [= <-].
        destruct (proj1 (IH j) eq_refl) as (pre & post & -> & Hpre & ->).
        exists (arg :: pre), post. split_and!; [done| |done].
        intros [-> | ?]%elem_of_cons; done.
      * intros ([|a pre] & post & Heq & Hpre & ->).
        { injection Heq as -> _. done. }
        injection Heq as <- ->.
        assert (indexOf (pre ++ flag :: post) flag = Some (length pre)) as ->.
        { apply IH. exists pre, post. split_and!; [done| |done].
          intros ?. apply Hpre, elem_of_cons. by right. }
        done.
Qed.

(** X19: [getArgValue] gives the argument that follows the first occurrence
    of the flag: it answers [v] exactly when the arguments are some
    arguments without the flag, then the flag, then [v]. A flag that is
    absent, or that comes last, has no value. *)
Theorem getArgValue_Some argv flag v :
  getArgValue argv flag = Some v ↔
    ∃ pre post, argv = pre ++ flag :: v :: post ∧ flag ∉ pre.
Proof.
  unfold getArgValue. split.
  - destruct (indexOf argv flag) as [i|] eqn:Hi; [|done].
    apply indexOf_Some in Hi as (pre & post & -> & Hpre & ->).
    rewrite lookup_app_r by lia.
    replace (length pre + 1 - length pre) with 1 by lia.
    destruct post as [|w post]; [done|]. simpl. intros [= ->]. eauto.
  - intros (pre & post & -> & Hpre).
    assert (indexOf (pre ++ flag :: v :: post) flag = Some (length pre)) as ->.
    { apply indexOf_Some. eauto. }
    rewrite lookup_app_r by lia.
    by replace (length pre + 1 - length pre) with 1 by lia.
Qed.

End more_prompt.

(** ** signal-reaction: addReaction, removeReaction *)

Section more_steps.
Import SignalReaction.
Implicit Types (host : Host).

Lemma present_Some value s : present value = Some s → value = Some s ∧ s ≠ "".
Proof.
  unfold present, JS.truthy. destruct value as [v|]; [|done].
  case_bool_decide; [|done]. by intros [= <-].
Qed.

(** X20: the state that [addReaction] writes never holds a reaction id, for
    an authorized author as for any other: a later [removeReaction] that
    reads this state from the file it was written to builds no deletion and
    logs that there is no reaction to remove. *)
Theorem addReaction_state_has_no_reaction host file state :
  written (addReaction host) = Some (file, state) →
  ReactionState.reactionId state = None
  ∧ ∀ host',
      getArgValue (argv host') "--state-file" = Some file →
      readState host' file = inl state →
      removeReaction host'
      = mkOutcome ["No reaction to remove (reactionId is null)"] [] None Returned.
Proof.
  unfold addReaction.
  destruct (present (env host "GITHUB_EVENT_PATH")) as [eventPath|]; [|done].
  destruct (present (env host "GITHUB_EVENT_NAME")) as [eventName|]; [|done].
  destruct (present (env host "GITHUB_REPOSITORY")) as [repo|]; [|done].
  destruct (present (getArgValue (argv host) "--state-file")) as [stateFile|]
    eqn:Hfile; [|done].
  apply present_Some in Hfile as [_ Hnonempty].
  destruct (readPayload host eventPath) as [payload|]; [|done].
  assert (∀ st : ReactionState.t,
            ReactionState.reactionId st = None →
            ∀ host',
              getArgValue (argv host') "--state-file" = Some stateFile →
              readState host' stateFile = inl st →
              removeReaction host'
              = mkOutcome ["No reaction to remove (reactionId is null)"] []
                  None Returned) as Hremove.
  { intros st Hid host' Harg Hread. unfold removeReaction, present.
    rewrite Harg. simpl. rewrite bool_decide_true by done.
    rewrite Hread. unfold buildRemoveReactionArgs. by rewrite Hid. }
  destruct (negb _); destruct (writable host stateFile); simpl;
    try done; intros [= <- <-]; (split; [done|]); by apply Hremove.
Qed.

Lemma addReaction_state_has_no_reaction_witness :
  written (addReaction ownerComment)
  = Some ("/tmp/state.json",
          ReactionState.mk None Comment (Some 100%Z) 42 "org/repo")
  ∧ ReactionState.reactionId
      (ReactionState.mk None Comment (Some 100%Z) 42 "org/repo") = None
  ∧ ∀ host',
      getArgValue (argv host') "--state-file" = Some "/tmp/state.json" →
      readState host' "/tmp/state.json"
      = inl (ReactionState.mk None Comment (Some 100%Z) 42 "org/repo") →
      removeReaction host'
      = mkOutcome ["No reaction to remove (reactionId is null)"] [] None Returned.
Proof.
  assert (written (addReaction ownerComment)
          = Some ("/tmp/state.json",
                  ReactionState.mk None Comment (Some 100%Z) 42 "org/repo"))
    as Hwritten by (vm_compute; reflexivity).
  split; [exact Hwritten|].
  exact (addReaction_state_has_no_reaction ownerComment _ _ Hwritten).
Defined.



End more_steps.

(** ** The message of the guard on parsed entries *)

Section more_message.
Implicit Types (text message : string).

Lemma trackingErrorLines_free (addedSpecs : list string) :
  Forall (λ p, JS.free JS.LF p = true) addedSpecs →
  Forall (λ line, JS.free JS.LF line = true) (trackingErrorLines addedSpecs).
Proof.
  intros Hfree. unfold trackingErrorLines.
  rewrite !Forall_app, Forall_fmap. split_and!.
  - by repeat constructor.
  - eapply Forall_impl; [exact Hfree|]. intros p Hp. simpl. exact Hp.
  - by repeat constructor.
Qed.

Lemma split_join_nonempty sep (fields : list string) :
  fields ≠ [] →
  Forall (λ field, JS.free sep field = true) fields →
  JS.split sep (JS.join (String sep "") fields) = fields.
Proof. destruct fields; [done|]. intros _. apply split_join. Qed.

(** X22: when the guard rejects the entries parsed from a diff, the lines of
    its message are exactly the two heading lines, one line per added spec
    artifact in ascending order, and the closing line that names the
    scoreboard: no path breaks the message across lines. *)
Theorem enforce_message_lines text message :
  enforceSpecToImplementationTracking (parseDiffEntries text) = Throw message →
  JS.split JS.LF message
  = trackingErrorLines (getAddedSpecArtifacts (parseDiffEntries text)).
Proof.
  rewrite enforce_cases. case_bool_decide; [done|].
  destruct (hasScoreboardUpdate _); [done|]. intros Hthrow.
  assert (message = JS.join (String JS.LF "")
            (trackingErrorLines (getAddedSpecArtifacts (parseDiffEntries text))))
    as -> by congruence.
  apply split_join_nonempty; [by unfold trackingErrorLines|].
  apply trackingErrorLines_free, Forall_forall. intros p Hp.
  apply getAddedSpecArtifacts_elem_of in Hp as (e & He & _ & _ & <-).
  pose proof (parseDiffEntries_clean text) as Hclean.
  rewrite Forall_forall in Hclean.
  by destruct (Hclean e He) as (_ & _ & _ & ?).
Qed.

Lemma enforce_message_lines_witness :
  enforceSpecToImplementationTracking
    (parseDiffEntries
       ("A" +:+ String JS.TAB ".GITHUB-MODE/docs/planning/x.md"))
  = Throw (JS.join (String JS.LF "")
             (trackingErrorLines [".GITHUB-MODE/docs/planning/x.md"]))
  ∧ JS.split JS.LF
      (JS.join (String JS.LF "")
         (trackingErrorLines [".GITHUB-MODE/docs/planning/x.md"]))
    = trackingErrorLines
        (getAddedSpecArtifacts
           (parseDiffEntries
              ("A" +:+ String JS.TAB ".GITHUB-MODE/docs/planning/x.md"))).
Proof.
  assert (enforceSpecToImplementationTracking
            (parseDiffEntries
               ("A" +:+ String JS.TAB ".GITHUB-MODE/docs/planning/x.md"))
          = Throw (JS.join (String JS.LF "")
                     (trackingErrorLines [".GITHUB-MODE/docs/planning/x.md"])))
    as Hthrow by (vm_compute; reflexivity).
  split; [exact Hthrow|].
  exact (enforce_message_lines _ _ Hthrow).
Defined.

End more_message.
